(** * git-repo-window-colors: the two helper scripts

    A shallow embedding of [scripts/remove_console_logs.py] (the log
    stripper) and of [scripts/recolor-vscode-icon.py] (the icon recolorer),
    followed by the properties of the specification that were checked
    against them.

    Conventions.
    - A Python [str] is a list of Unicode code points ([N]).  Literals are
      written with [lit].
    - A Python [int] is a [Z].
    - A Python tuple of integers (a pixel, a colour) is a [list Z]; a
      size [(w, h)] is a pair.
    - A [while] loop that the source does not visibly bound takes a fuel
      argument and answers [None] when the fuel runs out; a raised exception
      is [None] in functions that have no fuel. *)

From Stdlib Require Import List ZArith NArith Bool Lia String Ascii Sorted.
Import ListNotations.
Open Scope Z_scope.

(* ================================================================== *)
(** * Strings *)
(* ================================================================== *)

Module PyStr.

Definition char := N.
Definition str := list char.

(** An ASCII literal as a string of code points. *)
Definition lit (s : string) : str :=
  List.map N_of_ascii (list_ascii_of_string s).

Definition LF : char := 10%N.
Definition LPAREN : char := 40%N.
Definition RPAREN : char := 41%N.
Definition HASH : char := 35%N.
Definition QUOTE : char := 34%N.

(** [str.isspace] on one character: the code points that CPython treats as
    white space, which are the ones [str.lstrip()] and [str.strip()] remove
    when called without an argument. *)
Definition isspace (c : char) : bool :=
  ((9 <=? c) && (c <=? 13) || (28 <=? c) && (c <=? 32)
   || (c =? 133) || (c =? 160) || (c =? 5760)
   || (8192 <=? c) && (c <=? 8202)
   || (c =? 8232) || (c =? 8233) || (c =? 8239) || (c =? 8287)
   || (c =? 12288))%N.

(** [s.lstrip()] *)
Fixpoint lstrip (s : str) : str :=
  match s with
  | [] => []
  | c :: s' => if isspace c then lstrip s' else s
  end.

(** [s.rstrip()] *)
Definition rstrip (s : str) : str := rev (lstrip (rev s)).

(** [s.strip()] *)
Definition strip (s : str) : str := rstrip (lstrip s).

(** [s.lstrip(chars)] for a one-character argument. *)
Fixpoint lstrip_char (x : char) (s : str) : str :=
  match s with
  | [] => []
  | c :: s' => if (c =? x)%N then lstrip_char x s' else s
  end.

(** [s.startswith(prefix)] *)
Fixpoint startswith (s prefix : str) : bool :=
  match prefix, s with
  | [], _ => true
  | _ :: _, [] => false
  | p :: prefix', c :: s' => (c =? p)%N && startswith s' prefix'
  end.

(** [s.split("\n")]: the pieces between line feeds; never empty. *)
Fixpoint split_nl (s : str) : list str :=
  match s with
  | [] => [[]]
  | c :: s' =>
      if (c =? LF)%N then [] :: split_nl s'
      else match split_nl s' with
           | [] => [[c]]
           | l :: ls => (c :: l) :: ls
           end
  end.

(** ["\n".join(ls)] *)
Fixpoint join_nl (ls : list str) : str :=
  match ls with
  | [] => []
  | l :: ls' =>
      match ls' with
      | [] => l
      | _ :: _ => l ++ LF :: join_nl ls'
      end
  end.

(** [s[i:j]] for [0 <= i <= j]. *)
Definition slice (s : str) (i j : nat) : str := firstn (j - i) (skipn i s).

End PyStr.

(* ================================================================== *)
(** * The log stripper: scripts/remove_console_logs.py *)
(* ================================================================== *)

Module LogStripper.
Import PyStr.

(** [line.lstrip().startswith("console.log(")] *)
Definition starts_console_log (line : str) : bool :=
  startswith (lstrip line) (lit "console.log(").

(** How the [for char in current_line] loop ends: by [break], after it has
    set [i = j + 1], or by running off the line, which takes the [else]
    branch of the [for] with the two counters as they then are. *)
Inductive for_result : Type :=
| Break
| Exhausted (paren_count : Z) (in_console_log : bool).

Fixpoint for_char (current_line : str) (paren_count : Z) (in_console_log : bool)
  : for_result :=
  match current_line with
  | [] => Exhausted paren_count in_console_log
  | char :: tl =>
      if (char =? LPAREN)%N then for_char tl (paren_count + 1) true
      else if (char =? RPAREN)%N then
        let paren_count := paren_count - 1 in
        if in_console_log && (paren_count =? 0) then Break
        else for_char tl paren_count in_console_log
      else for_char tl paren_count in_console_log
  end.

(** The inner [while j < len(lines)] loop.  [rest] is [lines[j:]], so the
    loop runs at most [len(lines) - j] times.  [Some j]: the [for] loop
    broke on line [j] (and [i] became [j + 1]); [None]: [j] reached
    [len(lines)] and [i] was never assigned. *)
Fixpoint inner_while (rest : list str) (j : nat) (paren_count : Z)
  (in_console_log : bool) : option nat :=
  match rest with
  | [] => None
  | current_line :: rest' =>
      match for_char current_line paren_count in_console_log with
      | Break => Some j
      | Exhausted paren_count' in_console_log' =>
          inner_while rest' (S j) paren_count' in_console_log'
      end
  end.

(** The outer [while i < len(lines)] loop; one unit of fuel per iteration.
    [Some result]: the loop ended with this [result]. *)
Fixpoint outer_while (fuel : nat) (lines : list str) (i : nat)
  (result : list str) : option (list str) :=
  match fuel with
  | O => None
  | S fuel' =>
      match nth_error lines i with
      | None => Some result
      | Some line =>
          if starts_console_log line then
            match inner_while (skipn i lines) i 0 false with
            | Some j => outer_while fuel' lines (S j) result
            | None => outer_while fuel' lines i result
            end
          else outer_while fuel' lines (S i) (result ++ [line])
      end
  end.

(** [remove_console_logs(content)] *)
Definition remove_console_logs (fuel : nat) (content : str) : option str :=
  match outer_while fuel (split_nl content) 0%nat [] with
  | Some result => Some (join_nl result)
  | None => None
  end.

(** ** The stripper as the specification words it

    Lines are read one after the other.  Outside a statement, a line that
    starts with the prefix opens a deletion and the count starts at zero on
    that line; every '(' adds one and every ')' takes one away, and the
    deletion ends with the line on which the count comes back to zero.  A
    deletion that is still open at the end of the text has taken all the
    lines after its first one. *)

Inductive mode : Type :=
| Outside
| Inside (count : Z).

(** The running count over one line: [None] when it comes back to zero on
    this line, [Some c] when the line ends with the count at [c]. *)
Fixpoint balance (cs : str) (count : Z) : option Z :=
  match cs with
  | [] => Some count
  | c :: cs' =>
      if (c =? LPAREN)%N then
        if count + 1 =? 0 then None else balance cs' (count + 1)
      else if (c =? RPAREN)%N then
        if count - 1 =? 0 then None else balance cs' (count - 1)
      else balance cs' count
  end.

Definition after_line (l : str) (count : Z) : mode :=
  match balance l count with
  | None => Outside
  | Some c => Inside c
  end.

(** The lines kept, and the mode at the end of the text. *)
Fixpoint spec_lines (m : mode) (lines : list str) : list str * mode :=
  match lines with
  | [] => ([], m)
  | l :: rest =>
      match m with
      | Outside =>
          if starts_console_log l then spec_lines (after_line l 0) rest
          else let (kept, m') := spec_lines Outside rest in (l :: kept, m')
      | Inside c => spec_lines (after_line l c) rest
      end
  end.

Definition spec_kept (content : str) : list str :=
  fst (spec_lines Outside (split_nl content)).

Definition spec_final (content : str) : mode :=
  snd (spec_lines Outside (split_nl content)).

(** Every statement of the text is closed before its end. *)
Definition well_closed (content : str) : Prop := spec_final content = Outside.

Definition spec_remove_console_logs (content : str) : str :=
  join_nl (spec_kept content).

(** The scan of the source and the count of the specification answer alike:
    both stop, or both go on with the same count, which is positive, and
    with the flag of the source set. *)
Definition agree (r : for_result) (o : option Z) : Prop :=
  match r, o with
  | Break, None => True
  | Exhausted pc b, Some c => pc = c /\ b = true /\ 1 <= c
  | _, _ => False
  end.

(** ** Notions used to state further properties *)

(** [l1] is made of elements of [l2], in the order of [l2]. *)
Inductive subseq {A : Type} : list A -> list A -> Prop :=
| subseq_nil : subseq [] []
| subseq_skip (x : A) (l1 l2 : list A) : subseq l1 l2 -> subseq l1 (x :: l2)
| subseq_keep (x : A) (l1 l2 : list A) :
    subseq l1 l2 -> subseq (x :: l1) (x :: l2).

(** The characters of the lines, with one line feed for each line. *)
Fixpoint weight (ls : list str) : nat :=
  match ls with
  | [] => 0
  | l :: ls' => S (List.length l + weight ls')
  end.

End LogStripper.

(* ================================================================== *)
(** * The icon recolorer: scripts/recolor-vscode-icon.py *)
(* ================================================================== *)

Module IconRecolorer.
Import PyStr.

(** ** The builtin [int(text, base)]

    On ASCII text: optional white space on both sides, an optional sign, for
    base 16 an optional [0x] prefix, then digits with single underscores
    between them.  [None] is [ValueError].  CPython also takes Unicode
    decimal digits and spaces; a character above 127 is a [ValueError] in
    this model. *)

Definition ascii_space (c : char) : bool :=
  ((9 <=? c) && (c <=? 13) || (c =? 32))%N.

Fixpoint lstrip_ascii (s : str) : str :=
  match s with
  | [] => []
  | c :: s' => if ascii_space c then lstrip_ascii s' else s
  end.

Definition digit_value (c : char) : option Z :=
  if ((48 <=? c) && (c <=? 57))%N then Some (Z.of_N c - 48)
  else if ((97 <=? c) && (c <=? 122))%N then Some (Z.of_N c - 87)
  else if ((65 <=? c) && (c <=? 90))%N then Some (Z.of_N c - 55)
  else None.

Definition UNDERSCORE : char := 95%N.

(** The digits; [after_digit] says that the character before was a digit, so
    that an underscore may follow and the text may end. *)
Fixpoint int_digits (base : Z) (s : str) (acc : Z) (after_digit : bool)
  : option Z :=
  match s with
  | [] => if after_digit then Some acc else None
  | c :: s' =>
      if (c =? UNDERSCORE)%N then
        if after_digit then int_digits base s' acc false else None
      else
        match digit_value c with
        | Some d =>
            if d <? base then int_digits base s' (acc * base + d) true
            else None
        | None => None
        end
  end.

Definition skip_prefix (base : Z) (s : str) : str :=
  match s with
  | c0 :: cx :: s' =>
      if (base =? 16) && (c0 =? 48)%N && ((cx =? 120) || (cx =? 88))%N then
        match s' with
        | cu :: s'' => if (cu =? UNDERSCORE)%N then s'' else s'
        | [] => s'
        end
      else s
  | _ => s
  end.

Definition int (base : Z) (text : str) : option Z :=
  let s := rev (lstrip_ascii (rev (lstrip_ascii text))) in
  let (sign, s) :=
    match s with
    | c :: s' =>
        if (c =? 43)%N then (1, s')
        else if (c =? 45)%N then (-1, s')
        else (1, s)
    | [] => (1, s)
    end in
  match int_digits base (skip_prefix base s) 0 false with
  | Some n => Some (sign * n)
  | None => None
  end.

(** ** Colours *)

(** [hex_to_rgb(hex_color)]; [None] is the [ValueError] of [int]. *)
Definition hex_to_rgb (hex_color : str) : option (Z * Z * Z) :=
  let hex_color := lstrip_char HASH hex_color in
  match int 16 (slice hex_color 0 2) with
  | None => None
  | Some r =>
      match int 16 (slice hex_color 2 4) with
      | None => None
      | Some g =>
          match int 16 (slice hex_color 4 6) with
          | None => None
          | Some b => Some (r, g, b)
          end
      end
  end.

Definition vscode_blues : list (Z * Z * Z) :=
  [(0, 122, 204); (37, 99, 235); (59, 130, 246)].

(** The [for blue_r, blue_g, blue_b in vscode_blues] loop. *)
Fixpoint near_vscode_blue (blues : list (Z * Z * Z)) (r g b tolerance : Z)
  : bool :=
  match blues with
  | [] => false
  | (blue_r, blue_g, blue_b) :: blues' =>
      if (Z.abs (r - blue_r) <? tolerance)
         && (Z.abs (g - blue_g) <? tolerance)
         && (Z.abs (b - blue_b) <? tolerance)
      then true
      else near_vscode_blue blues' r g b tolerance
  end.

(** [is_blue_pixel(pixel, tolerance)]; [None] when [r, g, b = pixel[:3]]
    cannot unpack, that is when the pixel has fewer than three channels. *)
Definition is_blue_pixel (pixel : list Z) (tolerance : Z) : option bool :=
  match firstn 3 pixel with
  | [r; g; b] =>
      if (b >? r) && (b >? g) && (b >? 100) then Some true
      else Some (near_vscode_blue vscode_blues r g b tolerance)
  | _ => None
  end.

(** ** The pixel loop of [recolor_icon] *)

(** [pixels = img.load()]: pixel access by coordinates, written in place. *)
Definition PixelAccess := nat -> nat -> list Z.

Definition putpixel (pixels : PixelAccess) (x y : nat) (value : list Z)
  : PixelAccess :=
  fun x' y' => if ((x' =? x) && (y' =? y))%nat then value else pixels x' y'.

Section Recolor.

(** The two conversions go through [colorsys] on floating point numbers,
    which are not modelled: both enter as parameters. *)
Variable float : Type.
Variable rgb_to_hsv : Z -> Z -> Z -> float * float * float.
Variable hsv_to_rgb : float -> float -> float -> Z * Z * Z.

Variable target_rgb : Z * Z * Z.
Variable tolerance : Z.
Variable preserve_brightness : bool.

Definition target_h : float :=
  let '(target_r, target_g, target_b) := target_rgb in
  let '(h, _, _) := rgb_to_hsv target_r target_g target_b in h.

(** The new colour of a blue pixel. *)
Definition new_rgb (pixel : list Z) : option (Z * Z * Z) :=
  if preserve_brightness then
    match firstn 3 pixel with
    | [orig_r; orig_g; orig_b] =>
        let '(_, orig_s, orig_v) := rgb_to_hsv orig_r orig_g orig_b in
        Some (hsv_to_rgb target_h orig_s orig_v)
    | _ => None
    end
  else Some target_rgb.

(** One turn of the loop body at [(x, y)], on the pixels and the count of
    modified pixels; [None] is an exception. *)
Definition pixel_step (st : PixelAccess * Z) (x y : nat)
  : option (PixelAccess * Z) :=
  let (pixels, modified_pixels) := st in
  let pixel := pixels x y in
  if ((List.length pixel =? 4)%nat && (nth 3 pixel 0 =? 0)) then Some st
  else
    match is_blue_pixel pixel tolerance with
    | None => None
    | Some false => Some st
    | Some true =>
        match new_rgb pixel with
        | None => None
        | Some (new_r, new_g, new_b) =>
            let value :=
              if (List.length pixel =? 4)%nat
              then [new_r; new_g; new_b; nth 3 pixel 0]
              else [new_r; new_g; new_b] in
            Some (putpixel pixels x y value, modified_pixels + 1)
        end
    end.

(** [for y in range(height)] *)
Fixpoint for_y (ys : list nat) (x : nat) (st : PixelAccess * Z)
  : option (PixelAccess * Z) :=
  match ys with
  | [] => Some st
  | y :: ys' =>
      match pixel_step st x y with
      | None => None
      | Some st' => for_y ys' x st'
      end
  end.

(** [for x in range(width)] *)
Fixpoint for_x (xs : list nat) (height : nat) (st : PixelAccess * Z)
  : option (PixelAccess * Z) :=
  match xs with
  | [] => Some st
  | x :: xs' =>
      match for_y (seq 0 height) x st with
      | None => None
      | Some st' => for_x xs' height st'
      end
  end.

Definition recolor_pixels (width height : nat) (pixels : PixelAccess)
  : option (PixelAccess * Z) :=
  for_x (seq 0 width) height (pixels, 0).

End Recolor.

(** The alpha channel of an RGBA pixel. *)
Definition alpha (pixel : list Z) : Z := nth 3 pixel 0.

(** A pixel [new] is the pixel [orig], or [orig] is not transparent and
    [new] has four channels, the last of which is the alpha of [orig]. *)
Definition alpha_kept (orig new : list Z) : Prop :=
  new = orig
  \/ (alpha orig <> 0 /\ exists r g b, new = [r; g; b; alpha orig]).

(** The pixels [now] come from the pixels [orig] with every alpha as it
    was, and with the pixels of alpha 0 as they were. *)
Definition frame (orig now : PixelAccess) : Prop :=
  forall x y, alpha_kept (orig x y) (now x y).

(** A column of one transparent pixel and a column of one opaque pixel. *)
Definition two_pixels : PixelAccess :=
  fun x _ => match x with
             | O => [0; 122; 204; 0]
             | _ => [0; 122; 204; 200]
             end.

(** ** The ICO branch of [recolor_icon] *)

(** The [sizes] list, from the flag and [img.size]. *)
Definition ico_sizes (desktop_mode : bool) (original_size : Z * Z)
  : list (Z * Z) :=
  if desktop_mode then
    let sizes :=
      [(16, 16); (32, 32); (48, 48); (64, 64); (128, 128); (256, 256)] in
    if (fst original_size >? 256) || (snd original_size >? 256) then
      let sizes :=
        if (fst original_size >=? 512) && (snd original_size >=? 512)
        then sizes ++ [(512, 512)]
        else sizes in
      let max_size :=
        Z.min (Z.min (fst original_size) (snd original_size)) 1024 in
      if max_size >? 256 then sizes ++ [(max_size, max_size)] else sizes
    else sizes
  else [(16, 16); (32, 32); (48, 48); (64, 64)].

Definition standard_sizes : list (Z * Z) :=
  [(16, 16); (32, 32); (48, 48); (64, 64)].

Definition desktop_sizes : list (Z * Z) :=
  standard_sizes ++ [(128, 128); (256, 256)].

(** The desktop list as the specification words it: 512 and the original
    size capped at 1024 are added when the source is at least 512 in both
    dimensions, and nothing is added otherwise. *)
Definition claimed_desktop_sizes (w h : Z) : list (Z * Z) :=
  if (512 <=? w) && (512 <=? h) then
    desktop_sizes
      ++ [(512, 512); (Z.min (Z.min w h) 1024, Z.min (Z.min w h) 1024)]
  else desktop_sizes.

(** An image as far as the saving code looks at it: its size, and its
    contents. *)
Record Image : Type := mkImage {
  size : Z * Z;
  content : PixelAccess
}.

Definition size_eqb (a b : Z * Z) : bool :=
  (fst a =? fst b) && (snd a =? snd b).

Section Save.

(** What [Image.Resampling.LANCZOS] computes for the pixels of a resized
    image is left open; [img.resize(size, ...)] answers an image of the
    size it is asked for. *)
Variable resample : Image -> Z * Z -> PixelAccess.

Definition resize (img : Image) (sz : Z * Z) : Image :=
  mkImage sz (resample img sz).

Definition copy (img : Image) : Image := mkImage (size img) (content img).

(** The [for size in sizes] loop that fills [images]. *)
Fixpoint ico_images (img : Image) (sizes : list (Z * Z)) : list Image :=
  match sizes with
  | [] => []
  | sz :: sizes' =>
      (if negb (size_eqb (size img) sz) then resize img sz else copy img)
        :: ico_images img sizes'
  end.

(** What the script hands to the writer. *)
Inductive saved : Type :=
| SaveIco (first : option Image) (sizes : list (Z * Z))
| SaveByExtension (img : Image).

(** The [sizes=] argument: [[(im.size[0], im.size[1]) for im in images]]. *)
Definition declared_sizes (images : list Image) : list (Z * Z) :=
  List.map (fun im => (fst (size im), snd (size im))) images.

Definition save_step (output_ext : str) (desktop_mode : bool) (img : Image)
  : saved :=
  if list_eq_dec N.eq_dec output_ext (lit "ico") then
    let images := ico_images img (ico_sizes desktop_mode (size img)) in
    SaveIco (hd_error images) (declared_sizes images)
  else SaveByExtension img.

End Save.

(** A 512 x 512 image, and a resampling that answers the same pixels
    whatever the size. *)
Definition blank : PixelAccess := fun _ _ => [0; 0; 0; 255].
Definition no_resample : Image -> Z * Z -> PixelAccess := fun _ _ => blank.
Definition img512 : Image := mkImage (512, 512) blank.

(** ** [recolor_icon]

    [img] is the image after [img.convert("RGBA")] and [output_ext] is
    [output_path.lower().split(".")[-1]].  [None] is the [except] branch,
    which prints the error and returns [False]; failures of the image
    library itself are not modelled. *)

Section RecolorIcon.

Variable float : Type.
Variable rgb_to_hsv : Z -> Z -> Z -> float * float * float.
Variable hsv_to_rgb : float -> float -> float -> Z * Z * Z.
Variable resample : Image -> Z * Z -> PixelAccess.

Definition recolor_icon (img : Image) (output_ext : str)
  (target_rgb : Z * Z * Z) (tolerance : Z)
  (preserve_brightness desktop_mode : bool) : option saved :=
  let (width, height) := size img in
  match recolor_pixels float rgb_to_hsv hsv_to_rgb target_rgb tolerance
          preserve_brightness (Z.to_nat width) (Z.to_nat height) (content img)
  with
  | None => None
  | Some (pixels, _) =>
      Some (save_step resample output_ext desktop_mode
              (mkImage (size img) pixels))
  end.

End RecolorIcon.


(** ** [main], up to the call of [recolor_icon] *)

Record Args : Type := mkArgs {
  input_exists : bool;          (* Path(args.input).exists() *)
  color : list str;             (* args.color *)
  hex : option str;             (* args.hex *)
  tolerance_arg : Z;            (* args.tolerance *)
  desktop : bool;               (* args.desktop *)
  no_preserve_brightness : bool (* args.no_preserve_brightness *)
}.

Inductive main_step : Type :=
| Return1 (printed : str)
| CallRecolor (target_rgb : Z * Z * Z) (tolerance : Z)
    (preserve_brightness desktop_mode : bool).

(** [[int(x) for x in args.color]] *)
Fixpoint int_all (xs : list str) : option (list Z) :=
  match xs with
  | [] => Some []
  | x :: xs' =>
      match int 10 x with
      | None => None
      | Some v =>
          match int_all xs' with
          | None => None
          | Some vs => Some (v :: vs)
          end
      end
  end.

(** The [for i, val in enumerate(["R", "G", "B"])] loop: the name of the
    first component out of range. *)
Definition first_out_of_range (rgb : Z * Z * Z) : option str :=
  let '(r, g, b) := rgb in
  if negb ((0 <=? r) && (r <=? 255)) then Some (lit "R")
  else if negb ((0 <=? g) && (g <=? 255)) then Some (lit "G")
  else if negb ((0 <=? b) && (b <=? 255)) then Some (lit "B")
  else None.

(** Truth of [args.hex]: given, and not the empty string. *)
Definition hex_given (a : Args) : bool :=
  match hex a with
  | Some (_ :: _) => true
  | _ => false
  end.

Definition color_given (a : Args) : bool :=
  match color a with
  | _ :: _ => true
  | [] => false
  end.

Definition invalid_hex (text : str) : main_step :=
  Return1 (lit "Error: Invalid hex color '" ++ text ++ lit "'").

Definition wrong_count : main_step :=
  Return1 (lit
    "Error: RGB requires exactly 3 values (R G B) or use hex format (#FF0000)").

(** The branch for numeric arguments. *)
Definition rgb_target (cs : list str) : main_step + (Z * Z * Z) :=
  match int_all cs with
  | None => inl (Return1 (lit "Error: RGB values must be numbers"))
  | Some [r; g; b] =>
      match first_out_of_range (r, g, b) with
      | Some val =>
          inl (Return1 (lit "Error: " ++ val
                        ++ lit " value must be between 0 and 255"))
      | None => inr (r, g, b)
      end
  | Some _ => inl wrong_count
  end.

Definition hex_target (text : str) : main_step + (Z * Z * Z) :=
  match hex_to_rgb text with
  | Some rgb => inr rgb
  | None => inl (invalid_hex text)
  end.

(** [# Determine target RGB].  The last case is never reached from [main],
    which has returned before when neither form is given. *)
Definition target_of (a : Args) : main_step + (Z * Z * Z) :=
  if color_given a then
    match color a with
    | [c] => if startswith c [HASH] then hex_target c else rgb_target [c]
    | cs => rgb_target cs
    end
  else
    match hex a with
    | Some h => hex_target h
    | None => inl (invalid_hex [])
    end.

Definition main (input_name : str) (a : Args) : main_step :=
  if negb (input_exists a) then
    Return1 (lit "Error: Input file '" ++ input_name ++ lit "' not found")
  else if color_given a && hex_given a then
    Return1 (lit
      "Error: Please provide either color values OR --hex option, not both")
  else if negb (color_given a) && negb (hex_given a) then
    Return1 (lit
      "Error: Please provide color input: either RGB values (R G B) or hex code (#FF0000)")
  else
    match target_of a with
    | inl stop => stop
    | inr target_rgb =>
        CallRecolor target_rgb (tolerance_arg a)
          (negb (no_preserve_brightness a)) (desktop a)
    end.

(** ** Notions used to state further properties *)

(** A hexadecimal digit. *)
Definition hexdigit (c : char) : bool :=
  ((48 <=? c) && (c <=? 57) || (97 <=? c) && (c <=? 102)
   || (65 <=? c) && (c <=? 70))%N.

Definition hex_value (c : char) : Z :=
  match digit_value c with
  | Some d => d
  | None => 0
  end.

(** The value of two hexadecimal digits. *)
Definition byte_of (hi lo : char) : Z := 16 * hex_value hi + hex_value lo.

(** Within [tolerance] of the reference [blue], channel by channel. *)
Definition near (r g b tolerance : Z) (blue : Z * Z * Z) : Prop :=
  let '(blue_r, blue_g, blue_b) := blue in
  Z.abs (r - blue_r) < tolerance
  /\ Z.abs (g - blue_g) < tolerance
  /\ Z.abs (b - blue_b) < tolerance.

Definition hexdigits : list char :=
  [48; 49; 50; 51; 52; 53; 54; 55; 56; 57; 97; 98; 99; 100; 101; 102;
   65; 66; 67; 68; 69; 70]%N.

(** A pixel that the loop recolors: not transparent, and blue. *)
Definition recolored (tolerance : Z) (pixel : list Z) : bool :=
  negb (alpha pixel =? 0)
  && match is_blue_pixel pixel tolerance with
     | Some true => true
     | _ => false
     end.

Section Pointwise.

Variable float : Type.
Variable rgb_to_hsv : Z -> Z -> Z -> float * float * float.
Variable hsv_to_rgb : float -> float -> float -> Z * Z * Z.
Variable target_rgb : Z * Z * Z.
Variable tolerance : Z.
Variable preserve_brightness : bool.

(** What the loop makes of one RGBA pixel. *)
Definition recolor_one (pixel : list Z) : list Z :=
  if recolored tolerance pixel then
    match new_rgb float rgb_to_hsv hsv_to_rgb target_rgb preserve_brightness
            pixel with
    | Some (new_r, new_g, new_b) => [new_r; new_g; new_b; alpha pixel]
    | None => pixel
    end
  else pixel.

End Pointwise.

(** The number of pixels of the image that the loop recolors. *)
Definition recolored_count (tolerance : Z) (width height : nat)
  (pixels : PixelAccess) : Z :=
  Z.of_nat
    (List.length
       (filter (fun xy => recolored tolerance (pixels (fst xy) (snd xy)))
          (list_prod (seq 0 width) (seq 0 height)))).

Definition inb (n : nat) (ns : list nat) : bool := existsb (Nat.eqb n) ns.

Definition b2z (b : bool) : Z := if b then 1 else 0.

End IconRecolorer.

(* ================================================================== *)
(** * Properties of the log stripper *)
(* ================================================================== *)

Module LogStripperProofs.
Import PyStr LogStripper.

(** ** Splitting and joining *)

Lemma split_nl_not_nil (s : str) : split_nl s <> [].
Proof.
  destruct s as [|c s]; simpl; [discriminate|].
  destruct (c =? LF)%N; [discriminate|].
  destruct (split_nl s); discriminate.
Qed.

Lemma join_split (s : str) : join_nl (split_nl s) = s.
Proof.
  induction s as [|c s IH]; [reflexivity|].
  simpl. destruct (N.eqb_spec c LF) as [->|Hc].
  - change (join_nl ([] :: split_nl s)) with
      (match split_nl s with [] => [] | _ :: _ => [] ++ LF :: join_nl (split_nl s) end).
    pose proof (split_nl_not_nil s) as Hn.
    destruct (split_nl s) as [|l ls]; [contradiction|].
    rewrite IH. reflexivity.
  - pose proof (split_nl_not_nil s) as Hn.
    destruct (split_nl s) as [|l ls]; [contradiction|].
    rewrite <- IH. simpl. destruct ls; reflexivity.
Qed.

Lemma split_nl_no_lf (s : str) : Forall (fun l => ~ In LF l) (split_nl s).
Proof.
  induction s as [|c s IH]; simpl.
  - constructor; [intros []|constructor].
  - destruct (N.eqb_spec c LF) as [->|Hc].
    + constructor; [intros []|exact IH].
    + destruct (split_nl s) as [|l ls]; [repeat constructor; intros [H|[]]; congruence|].
      inversion IH as [|? ? Hl Hls]; subst.
      constructor; [|exact Hls].
      intros [H|H]; [congruence|contradiction].
Qed.

Lemma split_nl_line (l : str) : ~ In LF l -> split_nl l = [l].
Proof.
  induction l as [|c l IH]; intros Hl; [reflexivity|].
  simpl. destruct (N.eqb_spec c LF) as [->|Hc].
  - exfalso. apply Hl. left. reflexivity.
  - rewrite IH; [reflexivity|]. intros H. apply Hl. right. exact H.
Qed.

Lemma split_nl_app (l rest : str) :
  ~ In LF l -> split_nl (l ++ LF :: rest) = l :: split_nl rest.
Proof.
  induction l as [|c l IH]; intros Hl; simpl.
  - reflexivity.
  - destruct (N.eqb_spec c LF) as [->|Hc].
    + exfalso. apply Hl. left. reflexivity.
    + rewrite IH; [reflexivity|]. intros H. apply Hl. right. exact H.
Qed.

Lemma split_join (ls : list str) :
  ls <> [] -> Forall (fun l => ~ In LF l) ls -> split_nl (join_nl ls) = ls.
Proof.
  induction ls as [|l ls IH]; intros Hne Hall; [contradiction|].
  inversion Hall as [|? ? Hl Hls]; subst.
  destruct ls as [|l' ls'].
  - simpl. apply split_nl_line. exact Hl.
  - change (join_nl (l :: l' :: ls')) with (l ++ LF :: join_nl (l' :: ls')).
    rewrite split_nl_app by exact Hl.
    rewrite IH; [reflexivity|discriminate|exact Hls].
Qed.

(** ** The character scan of the source and the running count of the
    specification *)

Lemma isspace_not_paren (c : char) :
  isspace c = true -> (c =? LPAREN)%N = false /\ (c =? RPAREN)%N = false.
Proof.
  unfold isspace, LPAREN, RPAREN. intros H.
  split; apply N.eqb_neq; intros ->; discriminate H.
Qed.

Lemma for_char_lstrip (line : str) (pc : Z) (b : bool) :
  for_char line pc b = for_char (lstrip line) pc b.
Proof.
  induction line as [|c tl IH]; [reflexivity|].
  simpl lstrip. destruct (isspace c) eqn:Hc; [|reflexivity].
  destruct (isspace_not_paren c Hc) as [Hl Hr].
  simpl. rewrite Hl, Hr. exact IH.
Qed.

Lemma balance_lstrip (line : str) (count : Z) :
  balance line count = balance (lstrip line) count.
Proof.
  induction line as [|c tl IH]; [reflexivity|].
  simpl lstrip. destruct (isspace c) eqn:Hc; [|reflexivity].
  destruct (isspace_not_paren c Hc) as [Hl Hr].
  simpl. rewrite Hl, Hr. exact IH.
Qed.

Lemma startswith_app (s prefix : str) :
  startswith s prefix = true -> exists tl, s = prefix ++ tl.
Proof.
  revert s. induction prefix as [|p prefix IH]; intros s H.
  - exists s. reflexivity.
  - destruct s as [|c s]; [discriminate|].
    simpl in H. apply andb_prop in H. destruct H as [Hc Hs].
    apply N.eqb_eq in Hc. subst c.
    destruct (IH s Hs) as [tl ->]. exists tl. reflexivity.
Qed.


Lemma for_char_balance (cs : str) (pc : Z) :
  1 <= pc -> agree (for_char cs pc true) (balance cs pc).
Proof.
  revert pc. induction cs as [|c cs IH]; intros pc Hpc; simpl.
  - auto.
  - destruct (c =? LPAREN)%N.
    + destruct (Z.eqb_spec (pc + 1) 0); [lia|]. apply IH. lia.
    + destruct (c =? RPAREN)%N; [|apply IH; exact Hpc].
      destruct (Z.eqb_spec (pc - 1) 0); [exact I|]. apply IH. lia.
Qed.

Lemma start_line_agree (l : str) :
  starts_console_log l = true ->
  agree (for_char l 0 false) (balance l 0).
Proof.
  unfold starts_console_log. intros H.
  apply startswith_app in H. destruct H as [tl Htl].
  rewrite for_char_lstrip, balance_lstrip, Htl.
  change (for_char (lit "console.log(" ++ tl) 0 false) with (for_char tl 1 true).
  change (balance (lit "console.log(" ++ tl) 0) with (balance tl 1).
  apply for_char_balance. lia.
Qed.

(** ** Unfolding the specification's reading by one line *)

Lemma spec_lines_keep (l : str) (rest : list str) :
  starts_console_log l = false ->
  spec_lines Outside (l :: rest)
  = (l :: fst (spec_lines Outside rest), snd (spec_lines Outside rest)).
Proof.
  intros Hs. simpl. rewrite Hs.
  destruct (spec_lines Outside rest). reflexivity.
Qed.

Lemma spec_lines_start (l : str) (rest : list str) :
  starts_console_log l = true ->
  spec_lines Outside (l :: rest) = spec_lines (after_line l 0) rest.
Proof.
  intros Hs. simpl. rewrite Hs. reflexivity.
Qed.

(** ** The inner loop *)

Lemma inner_while_inside (rest : list str) :
  forall (j : nat) (pc : Z), 1 <= pc ->
  match inner_while rest j pc true with
  | Some j' =>
      (j <= j')%nat /\
      spec_lines (Inside pc) rest = spec_lines Outside (skipn (S (j' - j)) rest)
  | None => exists c, spec_lines (Inside pc) rest = ([], Inside c)
  end.
Proof.
  induction rest as [|l rest IH]; intros j pc Hpc; simpl.
  - exists pc. reflexivity.
  - pose proof (for_char_balance l pc Hpc) as Hag.
    unfold after_line.
    destruct (for_char l pc true) as [|pc' b], (balance l pc) as [c|];
      simpl in Hag; try contradiction.
    + split; [lia|]. rewrite Nat.sub_diag. reflexivity.
    + destruct Hag as (-> & -> & Hc).
      specialize (IH (S j) c Hc).
      destruct (inner_while rest (S j) c true) as [j'|].
      * destruct IH as [Hle Heq]. split; [lia|].
        rewrite Heq. replace (j' - j)%nat with (S (j' - S j)) by lia.
        reflexivity.
      * exact IH.
Qed.

Lemma inner_while_start (l : str) (rest : list str) (i : nat) :
  starts_console_log l = true ->
  match inner_while (l :: rest) i 0 false with
  | Some j' =>
      (i <= j')%nat /\
      spec_lines Outside (l :: rest)
      = spec_lines Outside (skipn (S (j' - i)) (l :: rest))
  | None => exists c, spec_lines Outside (l :: rest) = ([], Inside c)
  end.
Proof.
  intros Hs. pose proof (start_line_agree l Hs) as Hag.
  simpl. rewrite Hs. unfold after_line.
  destruct (for_char l 0 false) as [|pc' b], (balance l 0) as [c|];
    simpl in Hag; try contradiction.
  - split; [lia|]. rewrite Nat.sub_diag. reflexivity.
  - destruct Hag as (-> & -> & Hc).
    pose proof (inner_while_inside rest (S i) c Hc) as H.
    destruct (inner_while rest (S i) c true) as [j'|].
    + destruct H as [Hle Heq]. split; [lia|].
      rewrite Heq. replace (j' - i)%nat with (S (j' - S i)) by lia.
      reflexivity.
    + exact H.
Qed.

(** ** The outer loop *)

Lemma skipn_nth_error_some (lines : list str) (i : nat) (l : str) :
  nth_error lines i = Some l -> skipn i lines = l :: skipn (S i) lines.
Proof.
  revert i. induction lines as [|x lines IH]; intros [|i] H; simpl in *;
    try discriminate.
  - injection H as ->. reflexivity.
  - rewrite (IH i H). destruct lines; [destruct i; discriminate|reflexivity].
Qed.

Lemma skipn_nth_error_none (lines : list str) (i : nat) :
  nth_error lines i = None -> skipn i lines = [].
Proof.
  intros H. apply nth_error_None in H. apply skipn_all2. exact H.
Qed.

Lemma skipn_past (lines : list str) (i j : nat) :
  (i <= j)%nat -> skipn (S (j - i)) (skipn i lines) = skipn (S j) lines.
Proof.
  intros H. rewrite skipn_skipn. f_equal. lia.
Qed.


(** What the loop returns, when it returns: the lines the specification
    keeps, and the text was closed. *)
Lemma outer_while_sound (fuel : nat) (lines : list str) :
  forall (i : nat) (result out : list str),
  outer_while fuel lines i result = Some out ->
  exists kept,
    spec_lines Outside (skipn i lines) = (kept, Outside)
    /\ out = result ++ kept.
Proof.
  induction fuel as [|fuel IH]; intros i result out H; [discriminate|].
  simpl in H. destruct (nth_error lines i) as [l|] eqn:Hnth.
  - rewrite (skipn_nth_error_some _ _ _ Hnth) in *.
    destruct (starts_console_log l) eqn:Hs.
    + pose proof (inner_while_start l (skipn (S i) lines) i Hs) as Hin.
      destruct (inner_while (l :: skipn (S i) lines) i 0 false) as [j|].
      * destruct Hin as [Hle Heq].
        rewrite <- (skipn_nth_error_some _ _ _ Hnth) in Heq at 2.
        rewrite skipn_past in Heq by exact Hle.
        rewrite Heq. apply IH. exact H.
      * destruct Hin as [c Hc].
        destruct (IH i result out H) as (kept & Hk & _).
        rewrite (skipn_nth_error_some _ _ _ Hnth) in Hk.
        rewrite Hc in Hk. discriminate.
    + destruct (IH (S i) (result ++ [l]) out H) as (kept & Hk & ->).
      exists (l :: kept). rewrite (spec_lines_keep _ _ Hs), Hk.
      split; [reflexivity|]. rewrite <- app_assoc. reflexivity.
  - injection H as <-. rewrite (skipn_nth_error_none _ _ Hnth).
    exists []. split; [reflexivity|]. rewrite app_nil_r. reflexivity.
Qed.

(** On a closed text the loop ends, within one turn per line and one more. *)
Lemma outer_while_closed (n : nat) (lines : list str) :
  forall (i : nat) (result kept : list str),
  (List.length (skipn i lines) <= n)%nat ->
  spec_lines Outside (skipn i lines) = (kept, Outside) ->
  outer_while (S n) lines i result = Some (result ++ kept).
Proof.
  induction n as [|n IH]; intros i result kept Hlen Hspec.
  - destruct (skipn i lines) as [|l rest] eqn:Hsk; [|simpl in Hlen; lia].
    simpl. destruct (nth_error lines i) as [l|] eqn:Hnth.
    + rewrite (skipn_nth_error_some _ _ _ Hnth) in Hsk. discriminate.
    + simpl in Hspec. injection Hspec as <-. rewrite app_nil_r. reflexivity.
  - change (outer_while (S (S n)) lines i result) with
      (match nth_error lines i with
       | None => Some result
       | Some line =>
           if starts_console_log line then
             match inner_while (skipn i lines) i 0 false with
             | Some j => outer_while (S n) lines (S j) result
             | None => outer_while (S n) lines i result
             end
           else outer_while (S n) lines (S i) (result ++ [line])
       end).
    destruct (nth_error lines i) as [l|] eqn:Hnth.
    + pose proof (skipn_nth_error_some _ _ _ Hnth) as Hsk.
      assert (Hi : (i < List.length lines)%nat)
        by (apply nth_error_Some; congruence).
      rewrite length_skipn in Hlen.
      rewrite Hsk in Hspec |- *.
      destruct (starts_console_log l) eqn:Hs.
      * pose proof (inner_while_start l (skipn (S i) lines) i Hs) as Hin.
        destruct (inner_while (l :: skipn (S i) lines) i 0 false) as [j|].
        -- destruct Hin as [Hle Heq].
           rewrite <- Hsk in Heq at 2.
           rewrite skipn_past in Heq by exact Hle.
           apply IH.
           ++ rewrite length_skipn. lia.
           ++ rewrite <- Heq. exact Hspec.
        -- destruct Hin as [c Hc]. rewrite Hc in Hspec. discriminate.
      * rewrite (spec_lines_keep _ _ Hs) in Hspec.
        destruct (spec_lines Outside (skipn (S i) lines)) as [k m] eqn:Hk.
        simpl in Hspec. injection Hspec as <- ->.
        rewrite (IH (S i) (result ++ [l]) k);
          [|rewrite length_skipn; lia|exact Hk].
        rewrite <- app_assoc. reflexivity.
    + rewrite (skipn_nth_error_none _ _ Hnth) in Hspec. simpl in Hspec.
      injection Hspec as <-. rewrite app_nil_r. reflexivity.
Qed.

(** On a text with a statement left open the loop never ends. *)
Lemma outer_while_open (fuel : nat) (lines : list str) :
  forall (i : nat) (result kept : list str) (c : Z),
  spec_lines Outside (skipn i lines) = (kept, Inside c) ->
  outer_while fuel lines i result = None.
Proof.
  induction fuel as [|fuel IH]; intros i result kept c Hspec; [reflexivity|].
  simpl. destruct (nth_error lines i) as [l|] eqn:Hnth.
  - pose proof (skipn_nth_error_some _ _ _ Hnth) as Hsk.
    destruct (starts_console_log l) eqn:Hs.
    + rewrite Hsk.
      pose proof (inner_while_start l (skipn (S i) lines) i Hs) as Hin.
      destruct (inner_while (l :: skipn (S i) lines) i 0 false) as [j|].
      * destruct Hin as [Hle Heq].
        rewrite <- Hsk in Heq. rewrite skipn_past in Heq by exact Hle.
        apply (IH (S j) result kept c). rewrite <- Heq. exact Hspec.
      * apply (IH i result kept c). exact Hspec.
    + rewrite Hsk, (spec_lines_keep _ _ Hs) in Hspec.
      destruct (spec_lines Outside (skipn (S i) lines)) as [k m] eqn:Hk.
      simpl in Hspec. injection Hspec as <- ->.
      apply (IH (S i) (result ++ [l]) k c). exact Hk.
  - rewrite (skipn_nth_error_none _ _ Hnth) in Hspec. discriminate.
Qed.

(** The three cases for a whole text. *)
Lemma returns_kept (fuel : nat) (content out : str) :
  remove_console_logs fuel content = Some out ->
  well_closed content /\ out = spec_remove_console_logs content.
Proof.
  unfold remove_console_logs, well_closed, spec_remove_console_logs,
    spec_final, spec_kept.
  destruct (outer_while fuel (split_nl content) 0 []) as [result|] eqn:H;
    [|discriminate].
  intros [= <-]. apply outer_while_sound in H.
  destruct H as (kept & Hk & ->). simpl in Hk. rewrite Hk. auto.
Qed.

Lemma closed_returns (content : str) :
  well_closed content ->
  remove_console_logs (S (List.length (split_nl content))) content
  = Some (spec_remove_console_logs content).
Proof.
  unfold remove_console_logs, well_closed, spec_remove_console_logs,
    spec_final, spec_kept.
  intros H.
  destruct (spec_lines Outside (split_nl content)) as [kept m] eqn:Hk.
  simpl in H. subst m.
  rewrite (outer_while_closed _ _ 0%nat [] kept); [reflexivity| |exact Hk].
  simpl. lia.
Qed.

(** ** The lines that are kept *)

Lemma spec_lines_kept (lines : list str) :
  forall (m : mode) (l : str),
  In l (fst (spec_lines m lines)) ->
  In l lines /\ starts_console_log l = false.
Proof.
  induction lines as [|x lines IH]; intros m l Hin; simpl in Hin.
  - contradiction.
  - destruct m as [|c].
    + destruct (starts_console_log x) eqn:Hs.
      * destruct (IH _ _ Hin). split; [right|]; assumption.
      * destruct (spec_lines Outside lines) as [k m'] eqn:Hk.
        simpl in Hin. destruct Hin as [<-|Hin].
        -- split; [left; reflexivity|exact Hs].
        -- specialize (IH Outside l). rewrite Hk in IH.
           destruct (IH Hin). split; [right|]; assumption.
    + destruct (IH _ _ Hin). split; [right|]; assumption.
Qed.

Lemma spec_lines_no_start (lines : list str) :
  Forall (fun l => starts_console_log l = false) lines ->
  spec_lines Outside lines = (lines, Outside).
Proof.
  induction 1 as [|l lines Hl _ IH]; simpl; [reflexivity|].
  rewrite Hl, IH. reflexivity.
Qed.

Lemma kept_lines_no_start (content : str) :
  Forall (fun l => starts_console_log l = false)
    (split_nl (spec_remove_console_logs content)).
Proof.
  unfold spec_remove_console_logs, spec_kept.
  pose proof (spec_lines_kept (split_nl content) Outside) as Hk.
  pose proof (split_nl_no_lf content) as Hlf.
  rewrite Forall_forall in Hlf.
  destruct (fst (spec_lines Outside (split_nl content))) as [|k ks] eqn:Hkept.
  - simpl. repeat constructor.
  - rewrite split_join; [|discriminate|].
    + apply Forall_forall. intros l Hl. apply (Hk l Hl).
    + apply Forall_forall. intros l Hl. apply Hlf. apply (Hk l Hl).
Qed.

(** X1.  The function returns on a text exactly when the line-by-line
    reading of the text ends outside a statement. *)
Lemma returns_iff_closed (content : str) :
  (exists fuel out, remove_console_logs fuel content = Some out)
  <-> well_closed content.
Proof.
  split.
  - intros (fuel & out & H). apply (returns_kept fuel content out H).
  - intros H. eexists. eexists. apply closed_returns. exact H.
Qed.

(** ** The examples of the specification *)

Example single_line_statement :
  remove_console_logs 4
    (join_nl [lit "console.log(" ++ [QUOTE; 97%N; QUOTE] ++ lit ");";
              lit "keep();"; []])
  = Some (join_nl [lit "keep();"; []]).
Proof. reflexivity. Qed.

Example multi_line_statement :
  remove_console_logs 6
    (join_nl [lit "console.log(";
              lit "  " ++ [QUOTE; 97%N; QUOTE] ++ lit ",";
              lit "  " ++ [QUOTE; 98%N; QUOTE];
              lit ");"; lit "keep();"; []])
  = Some (join_nl [lit "keep();"; []]).
Proof. reflexivity. Qed.

Example other_prefix_is_kept :
  remove_console_logs 2 (lit "myconsole.log(1);")
  = Some (lit "myconsole.log(1);").
Proof. reflexivity. Qed.

Example rest_of_closing_line_goes :
  remove_console_logs 4
    (join_nl [lit "a();"; lit "  console.log(f(1)"; lit "); b();"; lit "c();"])
  = Some (join_nl [lit "a();"; lit "c();"]).
Proof. reflexivity. Qed.

(** ** The claims *)

(** C1.  The specification says that a [console.log(] statement which is
    not closed before the end of the text takes the rest of the text with
    it and that the function returns what is before it.  The function does
    not return on such a text: the inner loop runs off the end without
    assigning [i], and the outer loop starts again on the same line, for any
    number of turns. *)
Theorem unclosed_statement_never_returns (content : str) (c : Z) :
  spec_final content = Inside c ->
  forall fuel, remove_console_logs fuel content = None.
Proof.
  unfold remove_console_logs, spec_final. intros H fuel.
  destruct (spec_lines Outside (split_nl content)) as [kept m] eqn:Hk.
  simpl in H. subst m.
  rewrite (outer_while_open fuel _ 0%nat [] kept c Hk). reflexivity.
Qed.

Lemma unclosed_statement_witness :
  spec_final (join_nl [lit "keep();"; lit "console.log(1"; lit "more();"])
  = Inside 1
  /\ forall fuel,
       remove_console_logs fuel
         (join_nl [lit "keep();"; lit "console.log(1"; lit "more();"])
       = None.
Proof.
  split.
  - reflexivity.
  - apply (unclosed_statement_never_returns
             (join_nl [lit "keep();"; lit "console.log(1"; lit "more();"]) 1).
    reflexivity.
Defined.

(** C5.  Every line outside a statement is to appear in the output as it
    is.  On a text with a statement left open there is no output at all: in
    the text below the first line is outside every statement, and the
    function does not return, for any number of turns of its outer loop.
    This is the endless loop of C1. *)
Theorem open_statement_gives_no_output :
  forall fuel,
    remove_console_logs fuel
      (join_nl [lit "a();"; lit "console.log("; lit "b();"])
    = None.
Proof.
  intros fuel.
  assert (H : spec_lines Outside
                (split_nl (join_nl [lit "a();"; lit "console.log(";
                                    lit "b();"]))
              = ([lit "a();"], Inside 1)) by reflexivity.
  unfold remove_console_logs.
  rewrite (outer_while_open fuel _ 0%nat [] _ _ H). reflexivity.
Qed.

(** X21.  On every text whose statements are all closed before its end,
    and these are the texts on which the function returns, the function
    returns, and what it returns is the text without the lines of the
    statements: from a line that starts with [console.log(] after its
    leading white space, to the line on which the count of parentheses is
    back at zero; the other lines are there as they were, in their order. *)
Theorem remove_console_logs_on_closed_text (content : str) :
  well_closed content ->
  (exists fuel,
     remove_console_logs fuel content = Some (spec_remove_console_logs content))
  /\ (forall fuel out,
        remove_console_logs fuel content = Some out ->
        out = spec_remove_console_logs content).
Proof.
  intros Hc. split.
  - exists (S (List.length (split_nl content))). apply closed_returns. exact Hc.
  - intros fuel out H. apply returns_kept in H. apply H.
Qed.

Lemma remove_console_logs_on_closed_text_witness :
  well_closed
    (join_nl [lit "a();"; lit "  console.log(f(1)"; lit "); b();"; lit "c();"])
  /\ (exists fuel,
        remove_console_logs fuel
          (join_nl [lit "a();"; lit "  console.log(f(1)"; lit "); b();";
                    lit "c();"])
        = Some (join_nl [lit "a();"; lit "c();"])).
Proof.
  split.
  - reflexivity.
  - apply (remove_console_logs_on_closed_text
             (join_nl [lit "a();"; lit "  console.log(f(1)"; lit "); b();";
                       lit "c();"])).
    reflexivity.
Defined.

(** C7.  Idempotence: when the function returns [out] on a text, it returns
    [out] on [out], within one turn per line of [out] and one more. *)
Theorem remove_console_logs_idempotent (fuel : nat) (content out : str) :
  remove_console_logs fuel content = Some out ->
  remove_console_logs (S (List.length (split_nl out))) out = Some out.
Proof.
  intros H. apply returns_kept in H. destruct H as [_ ->].
  pose proof (kept_lines_no_start content) as Hno.
  set (out := spec_remove_console_logs content) in *.
  assert (Hc : well_closed out).
  { unfold well_closed, spec_final.
    rewrite (spec_lines_no_start _ Hno). reflexivity. }
  rewrite (closed_returns out Hc).
  unfold spec_remove_console_logs, spec_kept.
  rewrite (spec_lines_no_start _ Hno). simpl.
  rewrite join_split. reflexivity.
Qed.

Lemma remove_console_logs_idempotent_witness :
  remove_console_logs 5
    (join_nl [lit "a();"; lit "  console.log(f(1)"; lit "); b();"; lit "c();"])
  = Some (join_nl [lit "a();"; lit "c();"])
  /\ remove_console_logs 3 (join_nl [lit "a();"; lit "c();"])
     = Some (join_nl [lit "a();"; lit "c();"]).
Proof.
  split.
  - reflexivity.
  - apply (remove_console_logs_idempotent 5
             (join_nl [lit "a();"; lit "  console.log(f(1)"; lit "); b();";
                       lit "c();"])
             (join_nl [lit "a();"; lit "c();"])).
    reflexivity.
Defined.

(** C10.  When the function returns, no line of its output starts, after
    its leading white space, with [console.log(]. *)
Theorem output_has_no_log_line (fuel : nat) (content out : str) :
  remove_console_logs fuel content = Some out ->
  Forall (fun l => starts_console_log l = false) (split_nl out).
Proof.
  intros H. apply returns_kept in H. destruct H as [_ ->].
  apply kept_lines_no_start.
Qed.

Lemma output_has_no_log_line_witness :
  remove_console_logs 5
    (join_nl [lit "a();"; lit "  console.log(f(1)"; lit "); b();"; lit "c();"])
  = Some (join_nl [lit "a();"; lit "c();"])
  /\ Forall (fun l => starts_console_log l = false)
       (split_nl (join_nl [lit "a();"; lit "c();"])).
Proof.
  split.
  - reflexivity.
  - apply (output_has_no_log_line 5
             (join_nl [lit "a();"; lit "  console.log(f(1)"; lit "); b();";
                       lit "c();"])).
    reflexivity.
Defined.

(** ** Further properties *)


(** ** More fuel *)

Lemma outer_while_mono (fuel : nat) (lines : list str) :
  forall (i : nat) (result out : list str),
  outer_while fuel lines i result = Some out ->
  outer_while (S fuel) lines i result = Some out.
Proof.
  induction fuel as [|fuel IH]; intros i result out H; [discriminate|].
  change (outer_while (S (S fuel)) lines i result) with
    (match nth_error lines i with
     | None => Some result
     | Some line =>
         if starts_console_log line then
           match inner_while (skipn i lines) i 0 false with
           | Some j => outer_while (S fuel) lines (S j) result
           | None => outer_while (S fuel) lines i result
           end
         else outer_while (S fuel) lines (S i) (result ++ [line])
     end).
  simpl in H. destruct (nth_error lines i) as [l|]; [|exact H].
  destruct (starts_console_log l).
  - destruct (inner_while (skipn i lines) i 0 false); apply IH; exact H.
  - apply IH. exact H.
Qed.

Lemma outer_while_more (fuel fuel' : nat) (lines : list str) (i : nat)
  (result out : list str) :
  (fuel <= fuel')%nat ->
  outer_while fuel lines i result = Some out ->
  outer_while fuel' lines i result = Some out.
Proof.
  induction 1 as [|fuel' _ IH]; intros H; [exact H|].
  apply outer_while_mono. apply IH. exact H.
Qed.

(** X2.  When the function returns at all, it returns the same text with any
    fuel from the number of lines plus one on. *)
Theorem returns_within_line_count (fuel fuel' : nat) (content out : str) :
  remove_console_logs fuel content = Some out ->
  (S (List.length (split_nl content)) <= fuel')%nat ->
  remove_console_logs fuel' content = Some out.
Proof.
  intros H Hle. apply returns_kept in H. destruct H as [Hc ->].
  pose proof (closed_returns content Hc) as Hr.
  unfold remove_console_logs in *.
  destruct (outer_while (S (List.length (split_nl content)))
              (split_nl content) 0 []) as [result|] eqn:Hw; [|discriminate].
  rewrite (outer_while_more _ fuel' _ _ _ _ Hle Hw). exact Hr.
Qed.

Lemma returns_within_line_count_witness :
  remove_console_logs 9
    (join_nl [lit "a();"; lit "  console.log(f(1)"; lit "); b();"; lit "c();"])
  = Some (join_nl [lit "a();"; lit "c();"])
  /\ remove_console_logs 5
       (join_nl [lit "a();"; lit "  console.log(f(1)"; lit "); b();";
                 lit "c();"])
     = Some (join_nl [lit "a();"; lit "c();"]).
Proof.
  split.
  - reflexivity.
  - apply (returns_within_line_count 9 5
             (join_nl [lit "a();"; lit "  console.log(f(1)"; lit "); b();";
                       lit "c();"])).
    + reflexivity.
    + vm_compute. lia.
Defined.

(** X3.  A text none of whose lines starts a statement comes back as it is. *)
Theorem text_without_statement_unchanged (content : str) :
  Forall (fun l => starts_console_log l = false) (split_nl content) ->
  remove_console_logs (S (List.length (split_nl content))) content
  = Some content.
Proof.
  intros Hno.
  assert (Hc : well_closed content).
  { unfold well_closed, spec_final. rewrite (spec_lines_no_start _ Hno).
    reflexivity. }
  rewrite (closed_returns content Hc).
  unfold spec_remove_console_logs, spec_kept.
  rewrite (spec_lines_no_start _ Hno). simpl. rewrite join_split. reflexivity.
Qed.

Lemma text_without_statement_unchanged_witness :
  Forall (fun l => starts_console_log l = false)
    (split_nl (join_nl [lit "myconsole.log(1);"; []; lit "  console.error(2);"]))
  /\ remove_console_logs 4
       (join_nl [lit "myconsole.log(1);"; []; lit "  console.error(2);"])
     = Some (join_nl [lit "myconsole.log(1);"; []; lit "  console.error(2);"]).
Proof.
  assert (H : Forall (fun l => starts_console_log l = false)
                (split_nl (join_nl [lit "myconsole.log(1);"; [];
                                    lit "  console.error(2);"]))).
  { vm_compute. repeat constructor. }
  split; [exact H|].
  exact (text_without_statement_unchanged
           (join_nl [lit "myconsole.log(1);"; []; lit "  console.error(2);"]) H).
Defined.

(** ** The lines of the output among the lines of the input *)

Lemma spec_lines_subseq (lines : list str) :
  forall m, subseq (fst (spec_lines m lines)) lines.
Proof.
  induction lines as [|l lines IH]; intros m; simpl.
  - constructor.
  - destruct m as [|c].
    + destruct (starts_console_log l).
      * apply subseq_skip. apply IH.
      * specialize (IH Outside).
        destruct (spec_lines Outside lines) as [k m']. simpl in *.
        apply subseq_keep. exact IH.
    + apply subseq_skip. apply IH.
Qed.

(** X4.  The output is made of lines of the input, in their order. *)
Theorem output_lines_from_input (fuel : nat) (content out : str) :
  remove_console_logs fuel content = Some out ->
  exists kept,
    out = join_nl kept
    /\ subseq kept (split_nl content)
    /\ Forall (fun l => starts_console_log l = false) kept.
Proof.
  intros H. apply returns_kept in H. destruct H as [_ ->].
  exists (spec_kept content). split; [reflexivity|]. split.
  - apply spec_lines_subseq.
  - apply Forall_forall. intros l Hl.
    apply (spec_lines_kept (split_nl content) Outside l Hl).
Qed.

Lemma output_lines_from_input_witness :
  remove_console_logs 5
    (join_nl [lit "a();"; lit "  console.log(f(1)"; lit "); b();"; lit "c();"])
  = Some (join_nl [lit "a();"; lit "c();"])
  /\ exists kept,
       join_nl [lit "a();"; lit "c();"] = join_nl kept
       /\ subseq kept
            (split_nl
               (join_nl [lit "a();"; lit "  console.log(f(1)"; lit "); b();";
                         lit "c();"])).
Proof.
  split; [reflexivity|].
  destruct (output_lines_from_input 5
              (join_nl [lit "a();"; lit "  console.log(f(1)"; lit "); b();";
                        lit "c();"])
              (join_nl [lit "a();"; lit "c();"]) eq_refl)
    as (kept & Hj & Hs & _).
  exists kept. split; assumption.
Defined.

Lemma length_join_nl (ls : list str) :
  List.length (join_nl ls) = Nat.pred (weight ls).
Proof.
  induction ls as [|l ls IH]; [reflexivity|].
  destruct ls as [|l' ls'].
  - simpl. lia.
  - change (join_nl (l :: l' :: ls')) with (l ++ LF :: join_nl (l' :: ls')).
    rewrite length_app. cbn [List.length]. rewrite IH.
    cbn [weight]. lia.
Qed.

Lemma subseq_weight (k ls : list str) :
  subseq k ls -> (weight k <= weight ls)%nat.
Proof.
  induction 1; simpl; lia.
Qed.

(** X5.  The output is never longer than the input. *)
Theorem output_not_longer (fuel : nat) (content out : str) :
  remove_console_logs fuel content = Some out ->
  (List.length out <= List.length content)%nat.
Proof.
  intros H. apply returns_kept in H. destruct H as [_ ->].
  unfold spec_remove_console_logs.
  rewrite <- (join_split content) at 2.
  rewrite !length_join_nl.
  pose proof (subseq_weight _ _ (spec_lines_subseq (split_nl content) Outside)).
  unfold spec_kept. lia.
Qed.

Lemma output_not_longer_witness :
  remove_console_logs 5
    (join_nl [lit "a();"; lit "  console.log(f(1)"; lit "); b();"; lit "c();"])
  = Some (join_nl [lit "a();"; lit "c();"])
  /\ (List.length (join_nl [lit "a();"; lit "c();"])
      <= List.length
           (join_nl [lit "a();"; lit "  console.log(f(1)"; lit "); b();";
                     lit "c();"]))%nat.
Proof.
  split; [reflexivity|].
  apply (output_not_longer 5
           (join_nl [lit "a();"; lit "  console.log(f(1)"; lit "); b();";
                     lit "c();"])).
  reflexivity.
Defined.

(** ** A statement of one line *)

Lemma break_closes (l : str) :
  starts_console_log l = true ->
  for_char l 0 false = Break -> after_line l 0 = Outside.
Proof.
  intros Hs Hb. pose proof (start_line_agree l Hs) as Hag.
  rewrite Hb in Hag. unfold after_line.
  destruct (balance l 0); [contradiction|reflexivity].
Qed.

(** X6.  A first line that holds a whole statement goes, with its line
    feed; the rest is treated as if it were alone. *)
Theorem one_line_statement_dropped (fuel : nat) (l rest out : str) :
  ~ In LF l ->
  starts_console_log l = true ->
  for_char l 0 false = Break ->
  remove_console_logs fuel rest = Some out ->
  remove_console_logs (S (S (List.length (split_nl rest)))) (l ++ LF :: rest)
  = Some out.
Proof.
  intros Hlf Hs Hb H. apply returns_kept in H. destruct H as [Hc ->].
  assert (Hsplit : split_nl (l ++ LF :: rest) = l :: split_nl rest)
    by (apply split_nl_app; exact Hlf).
  assert (Hspec : spec_lines Outside (split_nl (l ++ LF :: rest))
                  = spec_lines Outside (split_nl rest)).
  { rewrite Hsplit, (spec_lines_start _ _ Hs), (break_closes l Hs Hb).
    reflexivity. }
  assert (Hc' : well_closed (l ++ LF :: rest)).
  { unfold well_closed, spec_final. rewrite Hspec. exact Hc. }
  pose proof (closed_returns _ Hc') as Hr.
  rewrite Hsplit in Hr. cbn [List.length] in Hr. rewrite Hr.
  unfold spec_remove_console_logs, spec_kept. rewrite Hspec. reflexivity.
Qed.

Lemma one_line_statement_dropped_witness :
  remove_console_logs 3 (join_nl [lit "keep();"; []])
  = Some (join_nl [lit "keep();"; []])
  /\ remove_console_logs 4
       (lit "  console.log(f(x), g());  // note" ++ LF
          :: join_nl [lit "keep();"; []])
     = Some (join_nl [lit "keep();"; []]).
Proof.
  split; [reflexivity|].
  apply (one_line_statement_dropped 3
           (lit "  console.log(f(x), g());  // note")
           (join_nl [lit "keep();"; []])).
  - vm_compute. intuition discriminate.
  - reflexivity.
  - reflexivity.
  - reflexivity.
Defined.


(** ** Indentation *)

Lemma lstrip_indent (ws l : str) :
  Forall (fun c => isspace c = true) ws -> lstrip (ws ++ l) = lstrip l.
Proof.
  induction 1 as [|c ws Hc _ IH]; [reflexivity|].
  simpl. rewrite Hc. exact IH.
Qed.

Lemma spec_lines_indent (ws l : str) (rest : list str) (m : mode) :
  Forall (fun c => isspace c = true) ws ->
  starts_console_log l = true ->
  spec_lines m ((ws ++ l) :: rest) = spec_lines m (l :: rest).
Proof.
  intros Hws Hs.
  assert (Hs' : starts_console_log (ws ++ l) = true).
  { unfold starts_console_log in *. rewrite (lstrip_indent _ _ Hws). exact Hs. }
  assert (Hb : forall c, after_line (ws ++ l) c = after_line l c).
  { intros c. unfold after_line.
    rewrite (balance_lstrip (ws ++ l)), (lstrip_indent _ _ Hws),
      <- (balance_lstrip l). reflexivity. }
  destruct m as [|c]; simpl.
  - rewrite Hs, Hs', Hb. reflexivity.
  - rewrite Hb. reflexivity.
Qed.

Lemma spec_lines_app (a s : list str) :
  forall m,
  spec_lines m (a ++ s)
  = (fst (spec_lines m a) ++ fst (spec_lines (snd (spec_lines m a)) s),
     snd (spec_lines (snd (spec_lines m a)) s)).
Proof.
  induction a as [|l a IH]; intros m.
  - simpl. destruct (spec_lines m s). reflexivity.
  - destruct m as [|c]; cbn [app spec_lines].
    + destruct (starts_console_log l); [apply IH|].
      rewrite (IH Outside). destruct (spec_lines Outside a) as [k m'].
      reflexivity.
    + apply IH.
Qed.

(** X7.  White space put in front of a line that starts a statement does not
    change what the function returns. *)
Theorem indentation_is_irrelevant (fuel : nat) (a b : list str) (ws l out : str) :
  Forall (fun c => isspace c = true /\ c <> LF) ws ->
  Forall (fun x => ~ In LF x) (a ++ l :: b) ->
  starts_console_log l = true ->
  remove_console_logs fuel (join_nl (a ++ l :: b)) = Some out ->
  remove_console_logs (S (List.length (a ++ l :: b)))
    (join_nl (a ++ (ws ++ l) :: b))
  = Some out.
Proof.
  intros Hws Hlf Hs H.
  assert (Hsp : Forall (fun c => isspace c = true) ws).
  { eapply Forall_impl; [|exact Hws]. intros c [Hc _]. exact Hc. }
  assert (Hlf' : Forall (fun x => ~ In LF x) (a ++ (ws ++ l) :: b)).
  { apply Forall_app in Hlf. destruct Hlf as [Ha Hlb].
    inversion Hlb as [|? ? Hl Hb]; subst.
    apply Forall_app. split; [exact Ha|]. constructor; [|exact Hb].
    intros Hin. apply in_app_or in Hin. destruct Hin as [Hin|Hin];
      [|contradiction].
    rewrite Forall_forall in Hws. destruct (Hws _ Hin) as [_ Hne].
    apply Hne. reflexivity. }
  assert (Hsplit : split_nl (join_nl (a ++ l :: b)) = a ++ l :: b).
  { apply split_join; [destruct a; discriminate|exact Hlf]. }
  assert (Hsplit' : split_nl (join_nl (a ++ (ws ++ l) :: b))
                    = a ++ (ws ++ l) :: b).
  { apply split_join; [destruct a; discriminate|exact Hlf']. }
  assert (Hspec : spec_lines Outside (a ++ (ws ++ l) :: b)
                  = spec_lines Outside (a ++ l :: b)).
  { rewrite !spec_lines_app, (spec_lines_indent ws l b _ Hsp Hs).
    reflexivity. }
  apply returns_kept in H. destruct H as [Hc ->].
  assert (Hc' : well_closed (join_nl (a ++ (ws ++ l) :: b))).
  { unfold well_closed, spec_final in *.
    rewrite Hsplit in Hc. rewrite Hsplit', Hspec. exact Hc. }
  pose proof (closed_returns _ Hc') as Hr.
  rewrite Hsplit' in Hr at 1.
  rewrite !length_app in *. cbn [List.length] in *. rewrite Hr.
  unfold spec_remove_console_logs, spec_kept.
  rewrite Hsplit, Hsplit', Hspec. reflexivity.
Qed.

Lemma indentation_is_irrelevant_witness :
  remove_console_logs 4
    (join_nl ([lit "a();"] ++ lit "console.log(1);" :: [lit "b();"]))
  = Some (join_nl [lit "a();"; lit "b();"])
  /\ remove_console_logs 4
       (join_nl ([lit "a();"] ++ (lit "    " ++ lit "console.log(1);")
                   :: [lit "b();"]))
     = Some (join_nl [lit "a();"; lit "b();"]).
Proof.
  split; [reflexivity|].
  apply (indentation_is_irrelevant 4 [lit "a();"] [lit "b();"] (lit "    ")
           (lit "console.log(1);")).
  - vm_compute. repeat constructor; discriminate.
  - vm_compute. repeat constructor; intuition discriminate.
  - reflexivity.
  - reflexivity.
Defined.

End LogStripperProofs.

(* ================================================================== *)
(** * Properties of the icon recolorer *)
(* ================================================================== *)

Module IconRecolorerProofs.
Import PyStr IconRecolorer.

(** ** The size list *)

Lemma ico_sizes_standard (original_size : Z * Z) :
  ico_sizes false original_size = standard_sizes.
Proof. reflexivity. Qed.

(** The desktop list, case by case. *)
Lemma desktop_list (w h : Z) :
  ico_sizes true (w, h)
  = desktop_sizes
      ++ (if (512 <=? w) && (512 <=? h) then [(512, 512)] else [])
      ++ (if 256 <? Z.min w h
          then [(Z.min (Z.min w h) 1024, Z.min (Z.min w h) 1024)]
          else []).
Proof.
  unfold ico_sizes, desktop_sizes, standard_sizes. cbn [fst snd].
  rewrite !Z.gtb_ltb, !Z.geb_leb.
  destruct (Z.leb_spec 512 w), (Z.leb_spec 512 h);
    destruct (Z.ltb_spec 256 w), (Z.ltb_spec 256 h);
    destruct (Z.ltb_spec 256 (Z.min w h));
    destruct (Z.ltb_spec 256 (Z.min (Z.min w h) 1024));
    try lia; reflexivity.
Qed.

(** C2, as stated: refuted by a 300 x 300 source, which is below 512 and
    still gets a size beyond 256, its own. *)
Lemma below_512_counterexample :
  ico_sizes true (300, 300) = desktop_sizes ++ [(300, 300)]
  /\ ico_sizes true (300, 300) <> claimed_desktop_sizes 300 300.
Proof.
  split; [reflexivity|]. intros H. discriminate H.
Qed.

(** C2, amended.  In desktop mode the list is 16, 32, 48, 64, 128, 256;
    then 512 exactly when both dimensions of the source are at least 512;
    then the smaller dimension of the source, capped at 1024, exactly when
    it is above 256. *)
Theorem ico_sizes_desktop (w h : Z) :
  ico_sizes true (w, h)
  = desktop_sizes
      ++ (if (512 <=? w) && (512 <=? h) then [(512, 512)] else [])
      ++ (if 256 <? Z.min w h
          then [(Z.min (Z.min w h) 1024, Z.min (Z.min w h) 1024)]
          else []).
Proof.
  unfold ico_sizes, desktop_sizes, standard_sizes. cbn [fst snd].
  rewrite !Z.gtb_ltb, !Z.geb_leb.
  destruct (Z.ltb_spec 256 w) as [Hw|Hw], (Z.ltb_spec 256 h) as [Hh|Hh];
    destruct (Z.leb_spec 512 w) as [Hw'|Hw'], (Z.leb_spec 512 h) as [Hh'|Hh'];
    destruct (Z.ltb_spec 256 (Z.min w h)) as [Hm|Hm];
    destruct (Z.ltb_spec 256 (Z.min (Z.min w h) 1024)) as [Hc|Hc];
    try lia; reflexivity.
Qed.

(** Where the list of the code and the list of the claim part. *)
Lemma ico_sizes_as_claimed_iff (w h : Z) :
  ico_sizes true (w, h) = claimed_desktop_sizes w h
  <-> ~ (256 < Z.min w h < 512).
Proof.
  rewrite desktop_list. unfold claimed_desktop_sizes.
  destruct (Z.leb_spec 512 w) as [Hw|Hw], (Z.leb_spec 512 h) as [Hh|Hh];
    destruct (Z.ltb_spec 256 (Z.min w h)) as [Hm|Hm]; cbn [andb];
    (split; [intros H; try lia; try discriminate H | intros H; try lia; try reflexivity]).
Qed.

(** ** What is handed to the ICO writer *)



Ltac fresh_size :=
  let H := fresh in
  cbn [In]; intros H;
  repeat (destruct H as [H|H]; [injection H; intros; lia|]); exact H.

Lemma nodup_desktop_sizes_iff (w h : Z) :
  NoDup (ico_sizes true (w, h)) <-> Z.min w h <> 512.
Proof.
  rewrite desktop_list. unfold desktop_sizes, standard_sizes.
  destruct (Z.leb_spec 512 w) as [Hw|Hw], (Z.leb_spec 512 h) as [Hh|Hh];
    destruct (Z.ltb_spec 256 (Z.min w h)) as [Hm|Hm]; cbn [andb app];
    try lia;
    (split;
     [ intros Hnd Heq; try lia;
       rewrite !NoDup_cons_iff in Hnd; cbn [In] in Hnd;
       replace (Z.min (Z.min w h) 1024) with 512 in Hnd by lia;
       tauto
     | intros Hne; repeat (apply NoDup_cons; [fresh_size|]); apply NoDup_nil ]).
Qed.


(** X22.  The computed size list has no size twice, except in desktop mode
    for a source whose smaller dimension is exactly 512, for which 512 is
    listed twice. *)
Lemma nodup_ico_sizes_iff (desktop_mode : bool) (w h : Z) :
  NoDup (ico_sizes desktop_mode (w, h))
  <-> ~ (desktop_mode = true /\ Z.min w h = 512).
Proof.
  destruct desktop_mode.
  - rewrite nodup_desktop_sizes_iff. tauto.
  - split.
    + intros _ [Hd _]. discriminate Hd.
    + intros _. cbn. repeat (apply NoDup_cons; [fresh_size|]). apply NoDup_nil.
Qed.


(** ** Classification *)

(** C4.  A pixel whose first three channels are (0, 122, 204) is blue for
    every tolerance from 0 on: it is blue by the first test, where the blue
    channel is above the two others and above 100, and the tolerance is not
    looked at. *)
Theorem primary_blue_is_blue (tolerance : Z) (rest : list Z) :
  0 <= tolerance ->
  is_blue_pixel (0 :: 122 :: 204 :: rest) tolerance = Some true.
Proof.
  intros _. unfold is_blue_pixel.
  change (firstn 3 (0 :: 122 :: 204 :: rest)) with [0; 122; 204].
  reflexivity.
Qed.

Lemma primary_blue_is_blue_witness :
  0 <= 0 /\ is_blue_pixel [0; 122; 204; 255] 0 = Some true.
Proof.
  split.
  - lia.
  - apply (primary_blue_is_blue 0 [255]). lia.
Defined.

(** ** Validation of the colour *)

(** C8.  A hex colour of five digits, one of more than six, and one with
    signs in it are taken as colours, and [main] goes on to the image; the
    last gives components below zero, which the branch for numeric
    arguments refuses. *)
Theorem malformed_hex_is_accepted :
  main (lit "icon.png") (mkArgs true [] (Some (lit "#FFFFF")) 30 false false)
  = CallRecolor (255, 255, 15) 30 true false
  /\ main (lit "icon.png")
       (mkArgs true [lit "#FF00001"] None 30 false false)
     = CallRecolor (255, 0, 0) 30 true false
  /\ main (lit "icon.png")
       (mkArgs true [] (Some (lit "#-1-1-1")) 30 false false)
     = CallRecolor (-1, -1, -1) 30 true false
  /\ main (lit "icon.png")
       (mkArgs true [lit "-1"; lit "-1"; lit "-1"] None 30 false false)
     = Return1 (lit "Error: R value must be between 0 and 255").
Proof.
  repeat split; vm_compute; reflexivity.
Qed.

(** ** The pixel loop *)

Section RecolorProofs.

Variable float : Type.
Variable rgb_to_hsv : Z -> Z -> Z -> float * float * float.
Variable hsv_to_rgb : float -> float -> float -> Z * Z * Z.
Variable target_rgb : Z * Z * Z.
Variable tolerance : Z.
Variable preserve_brightness : bool.

Abbreviation step := (pixel_step float rgb_to_hsv hsv_to_rgb target_rgb tolerance
                    preserve_brightness).
Abbreviation loop_y := (for_y float rgb_to_hsv hsv_to_rgb target_rgb tolerance
                      preserve_brightness).
Abbreviation loop_x := (for_x float rgb_to_hsv hsv_to_rgb target_rgb tolerance
                      preserve_brightness).

Lemma four_channels (pixel : list Z) :
  List.length pixel = 4%nat ->
  exists r g b, pixel = [r; g; b; alpha pixel].
Proof.
  destruct pixel as [|r [|g [|b [|a [|? ?]]]]]; try discriminate.
  intros _. exists r, g, b. reflexivity.
Qed.

Lemma alpha_kept_length (orig new : list Z) :
  alpha_kept orig new -> List.length orig = 4%nat ->
  List.length new = 4%nat /\ alpha new = alpha orig.
Proof.
  intros [->|(_ & r & g & b & ->)] Hlen; split; auto.
Qed.


Lemma frame_refl (orig : PixelAccess) : frame orig orig.
Proof. intros x y. left. reflexivity. Qed.

Lemma pixel_step_frame (orig now : PixelAccess) (n : Z) (x y : nat) :
  frame orig now ->
  List.length (orig x y) = 4%nat ->
  exists now' n', step (now, n) x y = Some (now', n') /\ frame orig now'.
Proof.
  intros Hfr Hlen.
  destruct (alpha_kept_length _ _ (Hfr x y) Hlen) as [Hlen' Ha].
  destruct (four_channels _ Hlen') as (r & g & b & Hpx).
  unfold pixel_step. rewrite Hlen'. cbn [Nat.eqb andb].
  fold (alpha (now x y)).
  destruct (Z.eqb_spec (alpha (now x y)) 0) as [Hz|Hnz].
  - exists now, n. split; [reflexivity|exact Hfr].
  - assert (Hblue : exists blue, is_blue_pixel (now x y) tolerance = Some blue).
    { rewrite Hpx. unfold is_blue_pixel. cbn [firstn].
      destruct ((b >? r) && (b >? g) && (b >? 100)); eexists; reflexivity. }
    destruct Hblue as [[|] ->].
    + assert (Hnew : exists new_r new_g new_b,
                 new_rgb float rgb_to_hsv hsv_to_rgb target_rgb
                   preserve_brightness (now x y)
                 = Some (new_r, new_g, new_b)).
      { unfold new_rgb. destruct preserve_brightness.
        - rewrite Hpx. cbn [firstn].
          destruct (rgb_to_hsv r g b) as [[oh os] ov].
          destruct (hsv_to_rgb _ os ov) as [[nr ng] nb].
          exists nr, ng, nb. reflexivity.
        - destruct target_rgb as [[tr tg] tb]. exists tr, tg, tb. reflexivity. }
      destruct Hnew as (nr & ng & nb & ->).
      eexists. eexists. split; [reflexivity|].
      intros x' y'. unfold putpixel.
      destruct ((x' =? x)%nat && (y' =? y)%nat) eqn:Hxy; [|apply Hfr].
      apply andb_prop in Hxy. destruct Hxy as [Hx Hy].
      apply Nat.eqb_eq in Hx, Hy. subst x' y'.
      right. split; [congruence|].
      exists nr, ng, nb. rewrite Ha. reflexivity.
    + exists now, n. split; [reflexivity|exact Hfr].
Qed.

(** What is written for a blue pixel that is not transparent: in the mode
    that preserves brightness, the conversion of the hue of the target with
    the saturation and the value of the pixel; otherwise the target; in both
    cases with the alpha of the pixel. *)
Lemma blue_pixel_written (pixels : PixelAccess) (n : Z) (x y : nat)
  (r g b a : Z) :
  pixels x y = [r; g; b; a] ->
  a <> 0 ->
  is_blue_pixel [r; g; b; a] tolerance = Some true ->
  step (pixels, n) x y
  = Some (putpixel pixels x y
            (let '(new_r, new_g, new_b) :=
               if preserve_brightness then
                 let '(_, orig_s, orig_v) := rgb_to_hsv r g b in
                 hsv_to_rgb (target_h float rgb_to_hsv target_rgb) orig_s orig_v
               else target_rgb in
             [new_r; new_g; new_b; a]),
          n + 1).
Proof.
  intros Hpx Ha Hblue. unfold pixel_step. rewrite Hpx, Hblue.
  cbn [List.length Nat.eqb andb nth].
  destruct (Z.eqb_spec a 0) as [Hz|_]; [contradiction|].
  unfold new_rgb. destruct preserve_brightness.
  - cbn [firstn]. destruct (rgb_to_hsv r g b) as [[oh os] ov].
    destruct (hsv_to_rgb _ os ov) as [[nr ng] nb]. reflexivity.
  - destruct target_rgb as [[tr tg] tb]. reflexivity.
Qed.

Lemma for_y_frame (orig : PixelAccess) (x : nat) (ys : list nat) :
  forall (now : PixelAccess) (n : Z),
  frame orig now ->
  (forall y, In y ys -> List.length (orig x y) = 4%nat) ->
  exists now' n', loop_y ys x (now, n) = Some (now', n') /\ frame orig now'.
Proof.
  induction ys as [|y ys IH]; intros now n Hfr Hlen.
  - exists now, n. split; [reflexivity|exact Hfr].
  - destruct (pixel_step_frame orig now n x y Hfr) as (now1 & n1 & Hs & Hfr1).
    { apply Hlen. left. reflexivity. }
    destruct (IH now1 n1 Hfr1) as (now2 & n2 & Hl & Hfr2).
    { intros y' Hy'. apply Hlen. right. exact Hy'. }
    exists now2, n2. split; [|exact Hfr2].
    cbn [for_y]. rewrite Hs. exact Hl.
Qed.

Lemma for_x_frame (orig : PixelAccess) (height : nat) (xs : list nat) :
  forall (now : PixelAccess) (n : Z),
  frame orig now ->
  (forall x y, In x xs -> (y < height)%nat -> List.length (orig x y) = 4%nat) ->
  exists now' n',
    loop_x xs height (now, n) = Some (now', n') /\ frame orig now'.
Proof.
  induction xs as [|x xs IH]; intros now n Hfr Hlen.
  - exists now, n. split; [reflexivity|exact Hfr].
  - destruct (for_y_frame orig x (seq 0 height) now n Hfr)
      as (now1 & n1 & Hs & Hfr1).
    { intros y Hy. apply Hlen; [left; reflexivity|].
      apply in_seq in Hy. lia. }
    destruct (IH now1 n1 Hfr1) as (now2 & n2 & Hl & Hfr2).
    { intros x' y Hx' Hy. apply Hlen; [right; exact Hx'|exact Hy]. }
    exists now2, n2. split; [|exact Hfr2].
    cbn [for_x]. rewrite Hs. exact Hl.
Qed.

(** C9.  On an RGBA image the pixel loop ends without an exception; a pixel
    whose alpha is 0 is afterwards what it was, and every pixel, recolored
    or not, has afterwards the alpha it had. *)
Theorem recolor_keeps_alpha (width height : nat) (pixels : PixelAccess) :
  (forall x y, (x < width)%nat -> (y < height)%nat ->
               List.length (pixels x y) = 4%nat) ->
  exists pixels' modified_pixels,
    recolor_pixels float rgb_to_hsv hsv_to_rgb target_rgb tolerance
      preserve_brightness width height pixels
    = Some (pixels', modified_pixels)
    /\ forall x y,
         (alpha (pixels x y) = 0 -> pixels' x y = pixels x y)
         /\ alpha (pixels' x y) = alpha (pixels x y).
Proof.
  intros Hrgba. unfold recolor_pixels.
  destruct (for_x_frame pixels height (seq 0 width) pixels 0 (frame_refl pixels))
    as (now & n & Hl & Hfr).
  { intros x y Hx Hy. apply Hrgba; [|exact Hy]. apply in_seq in Hx. lia. }
  exists now, n. split; [exact Hl|].
  intros x y. destruct (Hfr x y) as [->|(Hnz & r & g & b & ->)].
  - split; reflexivity.
  - split; [intros Hz; contradiction|reflexivity].
Qed.

End RecolorProofs.


Lemma recolor_keeps_alpha_witness :
  (forall x y, (x < 2)%nat -> (y < 1)%nat ->
               List.length (two_pixels x y) = 4%nat)
  /\ exists pixels' modified_pixels,
       recolor_pixels unit (fun _ _ _ => (tt, tt, tt)) (fun _ _ _ => (9, 9, 9))
         (255, 0, 0) 30 false 2 1 two_pixels
       = Some (pixels', modified_pixels)
       /\ forall x y,
            (alpha (two_pixels x y) = 0 -> pixels' x y = two_pixels x y)
            /\ alpha (pixels' x y) = alpha (two_pixels x y).
Proof.
  assert (H : forall x y, (x < 2)%nat -> (y < 1)%nat ->
                          List.length (two_pixels x y) = 4%nat).
  { intros [|x] y _ _; reflexivity. }
  split.
  - exact H.
  - exact (recolor_keeps_alpha unit (fun _ _ _ => (tt, tt, tt))
             (fun _ _ _ => (9, 9, 9)) (255, 0, 0) 30 false 2 1 two_pixels H).
Defined.

Example two_pixels_recolored :
  exists pixels',
    recolor_pixels unit (fun _ _ _ => (tt, tt, tt)) (fun _ _ _ => (9, 9, 9))
      (255, 0, 0) 30 false 2 1 two_pixels
    = Some (pixels', 1)
    /\ pixels' 0%nat 0%nat = [0; 122; 204; 0]
    /\ pixels' 1%nat 0%nat = [255; 0; 0; 200].
Proof. eexists. split; [reflexivity|]. split; reflexivity. Qed.

(** ** The loop and the saving together *)


Example icon_512_desktop :
  recolor_icon unit (fun _ _ _ => (tt, tt, tt)) (fun _ _ _ => (9, 9, 9))
    no_resample img512 (lit "ico") (255, 0, 0) 30 false true
  = Some (SaveIco (Some (mkImage (16, 16) blank))
            (desktop_sizes ++ [(512, 512); (512, 512)])).
Proof. vm_compute. reflexivity. Qed.




(** ** Further properties *)



(** ** Hexadecimal colours *)

Lemma hexdigit_in (c : char) : hexdigit c = true -> In c hexdigits.
Proof.
  unfold hexdigit, hexdigits. intros H.
  apply orb_prop in H. destruct H as [H|H];
    [apply orb_prop in H; destruct H as [H|H]|];
    apply andb_prop in H; destruct H as [Hlo Hhi];
    apply N.leb_le in Hlo, Hhi; cbn [In]; lia.
Qed.

Lemma int16_pair (hi lo : char) :
  hexdigit hi = true -> hexdigit lo = true ->
  int 16 [hi; lo] = Some (byte_of hi lo) /\ 0 <= byte_of hi lo <= 255.
Proof.
  intros Hhi Hlo. apply hexdigit_in in Hhi, Hlo.
  unfold hexdigits in Hhi, Hlo. cbn [In] in Hhi, Hlo.
  repeat (destruct Hhi as [<-|Hhi]); try contradiction;
    repeat (destruct Hlo as [<-|Hlo]); try contradiction;
    (split; [vm_compute; reflexivity|vm_compute; split; discriminate]).
Qed.

Lemma lstrip_char_hashes (k : nat) (c : char) (tl : str) :
  c <> HASH -> lstrip_char HASH (repeat HASH k ++ c :: tl) = c :: tl.
Proof.
  intros Hc. induction k as [|k IH]; simpl.
  - destruct (N.eqb_spec c HASH); [contradiction|reflexivity].
  - exact IH.
Qed.

Lemma hexdigit_not_hash (c : char) : hexdigit c = true -> c <> HASH.
Proof. intros H ->. discriminate H. Qed.

(** X8.  Six hexadecimal digits after any number of [#] give the three
    bytes, each from 0 to 255; what follows the six digits is not read. *)
Theorem hex_to_rgb_six_digits (k : nat) (d1 d2 d3 d4 d5 d6 : char)
  (rest : str) :
  hexdigit d1 = true -> hexdigit d2 = true -> hexdigit d3 = true ->
  hexdigit d4 = true -> hexdigit d5 = true -> hexdigit d6 = true ->
  hex_to_rgb (repeat HASH k ++ d1 :: d2 :: d3 :: d4 :: d5 :: d6 :: rest)
  = Some (byte_of d1 d2, byte_of d3 d4, byte_of d5 d6)
  /\ 0 <= byte_of d1 d2 <= 255
  /\ 0 <= byte_of d3 d4 <= 255
  /\ 0 <= byte_of d5 d6 <= 255.
Proof.
  intros H1 H2 H3 H4 H5 H6.
  destruct (int16_pair d1 d2 H1 H2) as [E1 R1].
  destruct (int16_pair d3 d4 H3 H4) as [E2 R2].
  destruct (int16_pair d5 d6 H5 H6) as [E3 R3].
  repeat split; try lia.
  unfold hex_to_rgb.
  rewrite (lstrip_char_hashes k d1 _ (hexdigit_not_hash d1 H1)).
  change (slice (d1 :: d2 :: d3 :: d4 :: d5 :: d6 :: rest) 0 2) with [d1; d2].
  change (slice (d1 :: d2 :: d3 :: d4 :: d5 :: d6 :: rest) 2 4) with [d3; d4].
  change (slice (d1 :: d2 :: d3 :: d4 :: d5 :: d6 :: rest) 4 6) with [d5; d6].
  rewrite E1, E2, E3. reflexivity.
Qed.

Lemma hex_to_rgb_six_digits_witness :
  hexdigit 98%N = true /\ hex_to_rgb (lit "#b14b0b") = Some (177, 75, 11).
Proof.
  split; [reflexivity|].
  apply (hex_to_rgb_six_digits 1 98%N 49%N 52%N 98%N 48%N 98%N []); reflexivity.
Defined.

(** A text with fewer than five characters after its leading [#] is a
    [ValueError]: the third slice is empty. *)
Lemma hex_to_rgb_short (text : str) :
  (List.length (lstrip_char HASH text) < 5)%nat -> hex_to_rgb text = None.
Proof.
  intros Hlen. unfold hex_to_rgb.
  assert (Hs : slice (lstrip_char HASH text) 4 6 = []).
  { unfold slice. rewrite skipn_all2 by lia. reflexivity. }
  rewrite Hs.
  destruct (int 16 (slice (lstrip_char HASH text) 0 2)); [|reflexivity].
  destruct (int 16 (slice (lstrip_char HASH text) 2 4)); reflexivity.
Qed.

(** ** Classification *)

Lemma near_vscode_blue_iff (blues : list (Z * Z * Z)) (r g b tolerance : Z) :
  near_vscode_blue blues r g b tolerance = true
  <-> exists blue, In blue blues /\ near r g b tolerance blue.
Proof.
  induction blues as [|[[br bg] bb] blues IH]; simpl.
  - split; [discriminate|]. intros (blue & [] & _).
  - destruct (Z.ltb_spec (Z.abs (r - br)) tolerance) as [Hr|Hr];
      destruct (Z.ltb_spec (Z.abs (g - bg)) tolerance) as [Hg|Hg];
      destruct (Z.ltb_spec (Z.abs (b - bb)) tolerance) as [Hb|Hb];
      cbn [andb];
      try (split; [intros _; exists (br, bg, bb); split;
                     [left; reflexivity|unfold near; auto]
                  |reflexivity]);
      (rewrite IH; split;
       [ intros (blue & Hin & Hn); exists blue; split; [right; exact Hin|exact Hn]
       | intros (blue & [<-|Hin] & Hn);
         [unfold near in Hn; lia|exists blue; split; assumption] ]).
Qed.

(** X9.  A pixel is blue exactly when its blue channel is above the two
    others and above 100, or the pixel is within the tolerance of one of the
    three reference blues, channel by channel and strictly. *)
Theorem is_blue_pixel_iff (r g b tolerance : Z) (rest : list Z) :
  is_blue_pixel (r :: g :: b :: rest) tolerance = Some true
  <-> (b > r /\ b > g /\ b > 100)
      \/ exists blue, In blue vscode_blues /\ near r g b tolerance blue.
Proof.
  unfold is_blue_pixel.
  change (firstn 3 (r :: g :: b :: rest)) with [r; g; b].
  rewrite <- near_vscode_blue_iff, !Z.gtb_ltb.
  destruct (Z.ltb_spec r b) as [Hr|Hr], (Z.ltb_spec g b) as [Hg|Hg],
           (Z.ltb_spec 100 b) as [Hb|Hb]; cbn [andb];
    (split;
     [ intros H; first [left; lia | right; congruence]
     | intros [H|H]; first [reflexivity | lia | congruence] ]).
Qed.

(** X10.  A larger tolerance never takes a pixel out of the blue ones. *)
Theorem is_blue_pixel_monotone (pixel : list Z) (t t' : Z) :
  t <= t' ->
  is_blue_pixel pixel t = Some true -> is_blue_pixel pixel t' = Some true.
Proof.
  intros Hle. unfold is_blue_pixel.
  destruct (firstn 3 pixel) as [|r [|g [|b [|? ?]]]]; try discriminate.
  destruct ((b >? r) && (b >? g) && (b >? 100)); [reflexivity|].
  intros H0.
  assert (H : near_vscode_blue vscode_blues r g b t = true) by congruence.
  f_equal. apply near_vscode_blue_iff.
  apply near_vscode_blue_iff in H. destruct H as ([[br bg] bb] & Hin & Hn).
  exists (br, bg, bb). split; [exact Hin|]. unfold near in *. lia.
Qed.

Lemma is_blue_pixel_monotone_witness :
  42 <= 60
  /\ is_blue_pixel [0; 163; 163; 255] 42 = Some true
  /\ is_blue_pixel [0; 163; 163; 255] 60 = Some true.
Proof.
  split; [lia|]. split; [reflexivity|].
  apply (is_blue_pixel_monotone [0; 163; 163; 255] 42 60); [lia|reflexivity].
Defined.

(** X11.  Up to a tolerance of 41, and so with the default of 30, a pixel
    near a reference blue passes the first test already: the answer is
    that of the first test alone.  From 42 on this is no longer so. *)
Theorem is_blue_pixel_small_tolerance (r g b tolerance : Z) (rest : list Z) :
  tolerance <= 41 ->
  is_blue_pixel (r :: g :: b :: rest) tolerance
  = Some ((b >? r) && (b >? g) && (b >? 100)).
Proof.
  intros Ht. unfold is_blue_pixel. cbn [firstn].
  destruct ((b >? r) && (b >? g) && (b >? 100)) eqn:Hdom; [reflexivity|].
  f_equal. apply not_true_is_false. intros H.
  apply near_vscode_blue_iff in H. destruct H as ([[br bg] bb] & Hin & Hn).
  rewrite !Z.gtb_ltb in Hdom.
  assert (Hnd : b <= r \/ b <= g \/ b <= 100).
  { destruct (Z.ltb_spec r b), (Z.ltb_spec g b), (Z.ltb_spec 100 b);
      try discriminate; lia. }
  unfold near in Hn. unfold vscode_blues in Hin. cbn [In] in Hin.
  destruct Hin as [E|[E|[E|[]]]]; injection E as <- <- <-; lia.
Qed.

Lemma is_blue_pixel_small_tolerance_witness :
  30 <= 41 /\ is_blue_pixel [30; 140; 130; 255] 30 = Some false.
Proof.
  split; [lia|].
  apply (is_blue_pixel_small_tolerance 30 140 130 30 [255]). lia.
Defined.

Example tolerance_42_adds_a_pixel :
  is_blue_pixel [0; 163; 163; 255] 41 = Some false
  /\ is_blue_pixel [0; 163; 163; 255] 42 = Some true.
Proof. split; reflexivity. Qed.

(** X12.  The classification raises exactly on pixels of fewer than three
    channels. *)
Theorem is_blue_pixel_raises_iff (pixel : list Z) (tolerance : Z) :
  is_blue_pixel pixel tolerance = None <-> (List.length pixel < 3)%nat.
Proof.
  unfold is_blue_pixel.
  destruct pixel as [|r [|g [|b rest]]]; cbn [firstn List.length];
    try (split; [intros _; lia|reflexivity]).
  split; [|lia].
  destruct ((b >? r) && (b >? g) && (b >? 100)); discriminate.
Qed.

(** ** The size list *)

(** X13.  Whatever the flag and the source, the sizes are squares from 16 to
    1024, in increasing order (not strictly), and the first four are 16,
    32, 48, 64. *)
Theorem ico_sizes_shape (desktop_mode : bool) (original_size : Z * Z) :
  Forall (fun s => fst s = snd s /\ 16 <= fst s <= 1024)
    (ico_sizes desktop_mode original_size)
  /\ Sorted Z.le (List.map fst (ico_sizes desktop_mode original_size))
  /\ firstn 4 (ico_sizes desktop_mode original_size) = standard_sizes.
Proof.
  destruct original_size as [w h]. destruct desktop_mode.
  - rewrite desktop_list. unfold desktop_sizes, standard_sizes.
    destruct (Z.leb_spec 512 w) as [Hw|Hw], (Z.leb_spec 512 h) as [Hh|Hh];
      destruct (Z.ltb_spec 256 (Z.min w h)) as [Hm|Hm];
      cbn [andb app List.map fst snd firstn].
    all: split; [|split; [|reflexivity]].
    all: repeat (first [apply Forall_cons | apply Forall_nil
                       | apply Sorted_cons | apply Sorted_nil
                       | apply HdRel_cons | apply HdRel_nil]).
    all: cbn [fst snd]; lia.
  - cbn. split; [|split; [|reflexivity]].
    all: repeat (first [apply Forall_cons | apply Forall_nil
                       | apply Sorted_cons | apply Sorted_nil
                       | apply HdRel_cons | apply HdRel_nil]).
    all: cbn [fst snd]; lia.
Qed.


Section PointwiseProofs.

Variable float : Type.
Variable rgb_to_hsv : Z -> Z -> Z -> float * float * float.
Variable hsv_to_rgb : float -> float -> float -> Z * Z * Z.
Variable target_rgb : Z * Z * Z.
Variable tolerance : Z.
Variable preserve_brightness : bool.

Abbreviation step := (pixel_step float rgb_to_hsv hsv_to_rgb target_rgb
                        tolerance preserve_brightness).
Abbreviation loop_y := (for_y float rgb_to_hsv hsv_to_rgb target_rgb tolerance
                          preserve_brightness).
Abbreviation loop_x := (for_x float rgb_to_hsv hsv_to_rgb target_rgb tolerance
                          preserve_brightness).
Abbreviation one := (recolor_one float rgb_to_hsv hsv_to_rgb target_rgb
                       tolerance preserve_brightness).
Abbreviation hit := (recolored tolerance).

Lemma inb_in (n : nat) (ns : list nat) : inb n ns = true <-> In n ns.
Proof.
  unfold inb. rewrite existsb_exists. split.
  - intros (m & Hin & Heq). apply Nat.eqb_eq in Heq. subst. exact Hin.
  - intros Hin. exists n. split; [exact Hin|apply Nat.eqb_refl].
Qed.

Lemma inb_seq (n len : nat) : inb n (seq 0 len) = (n <? len)%nat.
Proof.
  destruct (Nat.ltb_spec n len) as [H|H].
  - apply inb_in. apply in_seq. lia.
  - apply not_true_is_false. intros Hin. apply inb_in in Hin.
    apply in_seq in Hin. lia.
Qed.

Lemma one_length (pixel : list Z) :
  List.length pixel = 4%nat -> List.length (one pixel) = 4%nat.
Proof.
  intros H. unfold recolor_one. destruct (hit pixel); [|exact H].
  destruct (new_rgb _ _ _ _ _ pixel) as [[[nr ng] nb]|]; [reflexivity|exact H].
Qed.

Lemma step_pointwise (now : PixelAccess) (n : Z) (x y : nat) :
  List.length (now x y) = 4%nat ->
  exists now',
    step (now, n) x y = Some (now', n + b2z (hit (now x y)))
    /\ forall x' y',
         now' x' y'
         = if ((x' =? x) && (y' =? y))%nat then one (now x y) else now x' y'.
Proof.
  intros Hlen.
  destruct (four_channels _ Hlen) as (r & g & b & Hpx).
  unfold pixel_step, recolor_one, recolored. rewrite Hlen.
  cbn [Nat.eqb andb]. fold (alpha (now x y)).
  destruct (Z.eqb_spec (alpha (now x y)) 0) as [Hz|Hnz]; cbn [negb andb b2z].
  - exists now. split; [rewrite Z.add_0_r; reflexivity|].
    intros x' y'. destruct ((x' =? x)%nat && (y' =? y)%nat) eqn:Hxy;
      [|reflexivity].
    apply andb_prop in Hxy. destruct Hxy as [Hx Hy].
    apply Nat.eqb_eq in Hx, Hy. subst. reflexivity.
  - assert (Hblue : exists blue, is_blue_pixel (now x y) tolerance = Some blue).
    { rewrite Hpx. unfold is_blue_pixel. cbn [firstn].
      destruct ((b >? r) && (b >? g) && (b >? 100)); eexists; reflexivity. }
    destruct Hblue as [[|] ->]; cbn [b2z].
    + assert (Hnew : exists nr ng nb,
                 new_rgb float rgb_to_hsv hsv_to_rgb target_rgb
                   preserve_brightness (now x y) = Some (nr, ng, nb)).
      { unfold new_rgb. destruct preserve_brightness.
        - rewrite Hpx. cbn [firstn].
          destruct (rgb_to_hsv r g b) as [[oh os] ov].
          destruct (hsv_to_rgb _ os ov) as [[nr ng] nb].
          exists nr, ng, nb. reflexivity.
        - destruct target_rgb as [[tr tg] tb]. exists tr, tg, tb. reflexivity. }
      destruct Hnew as (nr & ng & nb & ->).
      eexists. split; [reflexivity|]. intros x' y'. reflexivity.
    + exists now. split; [rewrite Z.add_0_r; reflexivity|].
      intros x' y'. destruct ((x' =? x)%nat && (y' =? y)%nat) eqn:Hxy;
        [|reflexivity].
      apply andb_prop in Hxy. destruct Hxy as [Hx Hy].
      apply Nat.eqb_eq in Hx, Hy. subst. reflexivity.
Qed.

Lemma for_y_pointwise (x : nat) (ys : list nat) :
  forall (now : PixelAccess) (n : Z),
  NoDup ys ->
  (forall y, In y ys -> List.length (now x y) = 4%nat) ->
  exists now',
    loop_y ys x (now, n)
    = Some (now',
            n + Z.of_nat (List.length (filter (fun y => hit (now x y)) ys)))
    /\ forall x' y',
         now' x' y'
         = if (x' =? x)%nat && inb y' ys then one (now x' y') else now x' y'.
Proof.
  induction ys as [|y ys IH]; intros now n Hnd Hlen.
  - exists now. split; [cbn; rewrite Z.add_0_r; reflexivity|].
    intros x' y'. cbn. rewrite andb_false_r. reflexivity.
  - inversion Hnd as [|? ? Hnotin Hnd']; subst.
    destruct (step_pointwise now n x y) as (now1 & Hs & Hp1).
    { apply Hlen. left. reflexivity. }
    assert (Hsame : forall y', In y' ys -> now1 x y' = now x y').
    { intros y' Hy'. rewrite Hp1.
      destruct (Nat.eqb_spec y' y) as [->|Hne]; [contradiction|].
      rewrite andb_false_r. reflexivity. }
    destruct (IH now1 (n + b2z (hit (now x y))) Hnd') as (now2 & Hl & Hp2).
    { intros y' Hy'. rewrite (Hsame y' Hy'). apply Hlen. right. exact Hy'. }
    exists now2. split.
    + cbn [for_y]. rewrite Hs, Hl. f_equal. f_equal.
      rewrite (filter_ext_in (fun y0 => hit (now1 x y0))
                 (fun y0 => hit (now x y0)) ys)
        by (intros y' Hy'; rewrite (Hsame y' Hy'); reflexivity).
      cbn [filter]. destruct (hit (now x y)); cbn [b2z List.length]; lia.
    + intros x' y'. rewrite Hp2, Hp1. unfold inb. cbn [existsb].
      fold (inb y' ys).
      destruct (Nat.eqb_spec x' x) as [->|Hx]; cbn [andb]; [|reflexivity].
      destruct (Nat.eqb_spec y' y) as [->|Hy]; cbn [orb].
      * destruct (inb y ys) eqn:Hin; [|reflexivity].
        apply inb_in in Hin. contradiction.
      * destruct (inb y' ys); reflexivity.
Qed.

Lemma filter_pairs (f : nat * nat -> bool) (x : nat) (ys : list nat) :
  List.length (filter f (List.map (fun y => (x, y)) ys))
  = List.length (filter (fun y => f (x, y)) ys).
Proof.
  induction ys as [|y ys IH]; [reflexivity|].
  cbn [List.map filter]. destruct (f (x, y)); cbn [List.length]; lia.
Qed.

Lemma for_x_pointwise (height : nat) (xs : list nat) :
  forall (now : PixelAccess) (n : Z),
  NoDup xs ->
  (forall x y, In x xs -> (y < height)%nat -> List.length (now x y) = 4%nat) ->
  exists now',
    loop_x xs height (now, n)
    = Some (now',
            n + Z.of_nat
                  (List.length
                     (filter (fun xy => hit (now (fst xy) (snd xy)))
                        (list_prod xs (seq 0 height)))))
    /\ forall x' y',
         now' x' y'
         = if inb x' xs && (y' <? height)%nat
           then one (now x' y') else now x' y'.
Proof.
  induction xs as [|x xs IH]; intros now n Hnd Hlen.
  - exists now. split; [cbn; rewrite Z.add_0_r; reflexivity|].
    intros x' y'. reflexivity.
  - inversion Hnd as [|? ? Hnotin Hnd']; subst.
    destruct (for_y_pointwise x (seq 0 height) now n (seq_NoDup height 0))
      as (now1 & Hs & Hp1).
    { intros y Hy. apply Hlen; [left; reflexivity|]. apply in_seq in Hy. lia. }
    assert (Hsame : forall x' y', In x' xs -> now1 x' y' = now x' y').
    { intros x' y' Hx'. rewrite Hp1.
      destruct (Nat.eqb_spec x' x) as [->|Hne]; [contradiction|reflexivity]. }
    destruct (IH now1
                (n + Z.of_nat
                       (List.length
                          (filter (fun y => hit (now x y)) (seq 0 height))))
                Hnd')
      as (now2 & Hl & Hp2).
    { intros x' y Hx' Hy. rewrite (Hsame x' y Hx').
      apply Hlen; [right; exact Hx'|exact Hy]. }
    exists now2. split.
    + cbn [for_x]. rewrite Hs, Hl. f_equal. f_equal.
      rewrite (filter_ext_in (fun xy => hit (now1 (fst xy) (snd xy)))
                 (fun xy => hit (now (fst xy) (snd xy)))
                 (list_prod xs (seq 0 height))).
      * cbn [list_prod]. rewrite filter_app, length_app, filter_pairs.
        cbn [fst snd]. lia.
      * intros [x' y'] Hin. apply in_prod_iff in Hin. cbn [fst snd].
        rewrite (Hsame x' y' (proj1 Hin)). reflexivity.
    + intros x' y'. rewrite Hp2, Hp1, inb_seq. unfold inb. cbn [existsb].
      fold (inb x' xs).
      destruct (Nat.eqb_spec x' x) as [->|Hx]; cbn [andb orb].
      * destruct (inb x xs) eqn:Hin;
          [apply inb_in in Hin; contradiction|].
        cbn [andb]. reflexivity.
      * destruct (inb x' xs); reflexivity.
Qed.

(** X14.  On an RGBA image the double loop is a map over the pixels of the
    image: each of them becomes what [recolor_one] makes of it, the pixels
    at other coordinates are not written, and the count that is returned is
    the number of pixels that are not transparent and blue, at most
    [width * height]. *)
Theorem recolor_pixels_pointwise (width height : nat) (pixels : PixelAccess) :
  (forall x y, (x < width)%nat -> (y < height)%nat ->
               List.length (pixels x y) = 4%nat) ->
  exists pixels',
    recolor_pixels float rgb_to_hsv hsv_to_rgb target_rgb tolerance
      preserve_brightness width height pixels
    = Some (pixels', recolored_count tolerance width height pixels)
    /\ (forall x y,
          pixels' x y
          = if ((x <? width) && (y <? height))%nat
            then one (pixels x y) else pixels x y)
    /\ 0 <= recolored_count tolerance width height pixels
       <= Z.of_nat (width * height).
Proof.
  intros Hrgba. unfold recolor_pixels, recolored_count.
  destruct (for_x_pointwise height (seq 0 width) pixels 0 (seq_NoDup width 0))
    as (now & Hl & Hp).
  { intros x y Hx Hy. apply Hrgba; [|exact Hy]. apply in_seq in Hx. lia. }
  exists now. split; [exact Hl|]. split.
  - intros x y. rewrite Hp, inb_seq. reflexivity.
  - split; [lia|]. apply inj_le.
    etransitivity; [apply filter_length_le|].
    rewrite length_prod, !length_seq. lia.
Qed.

End PointwiseProofs.


Lemma recolor_pixels_pointwise_witness :
  (forall x y, (x < 2)%nat -> (y < 1)%nat ->
               List.length (two_pixels x y) = 4%nat)
  /\ exists pixels',
       recolor_pixels unit (fun _ _ _ => (tt, tt, tt)) (fun _ _ _ => (9, 9, 9))
         (255, 0, 0) 30 true 2 1 two_pixels
       = Some (pixels', 1)
       /\ pixels' 0%nat 0%nat = [0; 122; 204; 0]
       /\ pixels' 1%nat 0%nat = [9; 9; 9; 200]
       /\ pixels' 2%nat 0%nat = [0; 122; 204; 200].
Proof.
  assert (H : forall x y, (x < 2)%nat -> (y < 1)%nat ->
                          List.length (two_pixels x y) = 4%nat).
  { intros [|x] y _ _; reflexivity. }
  split; [exact H|].
  destruct (recolor_pixels_pointwise unit (fun _ _ _ => (tt, tt, tt))
              (fun _ _ _ => (9, 9, 9)) (255, 0, 0) 30 true 2 1 two_pixels H)
    as (pixels' & Hr & Hp & _).
  exists pixels'. split; [exact Hr|].
  rewrite !Hp. repeat split.
Defined.

Section Flat.

Variable float : Type.
Variable rgb_to_hsv : Z -> Z -> Z -> float * float * float.
Variable hsv_to_rgb : float -> float -> float -> Z * Z * Z.
Variable target_rgb : Z * Z * Z.
Variable tolerance : Z.

Abbreviation flat := (recolor_one float rgb_to_hsv hsv_to_rgb target_rgb
                        tolerance false).

Lemma flat_flat (pixel : list Z) : flat (flat pixel) = flat pixel.
Proof.
  unfold recolor_one, new_rgb. destruct target_rgb as [[tr tg] tb].
  destruct (recolored tolerance pixel) eqn:Hhit.
  - destruct (recolored tolerance [tr; tg; tb; alpha pixel]); reflexivity.
  - rewrite Hhit. reflexivity.
Qed.

(** X15.  Without brightness preservation a second run with the same target
    and tolerance leaves every pixel as the first run made it. *)
Theorem flat_recolor_twice (width height : nat) (pixels once : PixelAccess)
  (n : Z) :
  (forall x y, (x < width)%nat -> (y < height)%nat ->
               List.length (pixels x y) = 4%nat) ->
  recolor_pixels float rgb_to_hsv hsv_to_rgb target_rgb tolerance false
    width height pixels = Some (once, n) ->
  exists twice m,
    recolor_pixels float rgb_to_hsv hsv_to_rgb target_rgb tolerance false
      width height once = Some (twice, m)
    /\ forall x y, twice x y = once x y.
Proof.
  intros Hrgba Hrun. unfold recolor_pixels in *.
  destruct (for_x_pointwise float rgb_to_hsv hsv_to_rgb target_rgb tolerance
              false height (seq 0 width) pixels 0 (seq_NoDup width 0))
    as (now & Hl & Hp).
  { intros x y Hx Hy. apply Hrgba; [|exact Hy]. apply in_seq in Hx. lia. }
  rewrite Hl in Hrun. injection Hrun as <- _.
  destruct (for_x_pointwise float rgb_to_hsv hsv_to_rgb target_rgb tolerance
              false height (seq 0 width) now 0 (seq_NoDup width 0))
    as (now2 & Hl2 & Hp2).
  { intros x y Hx Hy. apply in_seq in Hx. rewrite Hp, inb_seq.
    destruct (Nat.ltb_spec x width); [|lia].
    destruct (Nat.ltb_spec y height); [|lia]. cbn [andb].
    apply one_length. apply Hrgba; assumption. }
  eexists. eexists. split; [exact Hl2|].
  intros x y. rewrite Hp2, Hp.
  destruct (inb x (seq 0 width) && (y <? height)%nat); [|reflexivity].
  apply flat_flat.
Qed.

End Flat.

Lemma flat_recolor_twice_witness :
  exists once,
    recolor_pixels unit (fun _ _ _ => (tt, tt, tt)) (fun _ _ _ => (9, 9, 9))
      (0, 0, 255) 30 false 2 1 two_pixels = Some (once, 1)
    /\ exists twice m,
         recolor_pixels unit (fun _ _ _ => (tt, tt, tt))
           (fun _ _ _ => (9, 9, 9)) (0, 0, 255) 30 false 2 1 once
         = Some (twice, m)
         /\ forall x y, twice x y = once x y.
Proof.
  eexists. split; [reflexivity|].
  apply (flat_recolor_twice unit (fun _ _ _ => (tt, tt, tt))
           (fun _ _ _ => (9, 9, 9)) (0, 0, 255) 30 2 1 two_pixels _ 1).
  - intros [|x] y _ _; reflexivity.
  - reflexivity.
Defined.



(** ** [main] *)

Lemma first_out_of_range_none (r g b : Z) :
  first_out_of_range (r, g, b) = None ->
  0 <= r <= 255 /\ 0 <= g <= 255 /\ 0 <= b <= 255.
Proof.
  unfold first_out_of_range.
  destruct (Z.leb_spec 0 r), (Z.leb_spec r 255); cbn [andb negb];
    try discriminate.
  destruct (Z.leb_spec 0 g), (Z.leb_spec g 255); cbn [andb negb];
    try discriminate.
  destruct (Z.leb_spec 0 b), (Z.leb_spec b 255); cbn [andb negb];
    try discriminate.
  intros _. lia.
Qed.

Lemma rgb_target_inr (cs : list str) (r g b : Z) :
  rgb_target cs = inr (r, g, b) ->
  int_all cs = Some [r; g; b]
  /\ 0 <= r <= 255 /\ 0 <= g <= 255 /\ 0 <= b <= 255.
Proof.
  unfold rgb_target.
  destruct (int_all cs) as [[|r' [|g' [|b' [|? ?]]]]|]; try discriminate.
  destruct (first_out_of_range (r', g', b')) eqn:Hr; [discriminate|].
  intros [= <- <- <-]. split; [reflexivity|].
  apply first_out_of_range_none. exact Hr.
Qed.

Lemma rgb_target_inl (cs : list str) (stop : main_step) :
  rgb_target cs = inl stop -> exists printed, stop = Return1 printed.
Proof.
  unfold rgb_target, wrong_count.
  destruct (int_all cs) as [[|r [|g [|b [|? ?]]]]|];
    try (intros [= <-]; eexists; reflexivity).
  destruct (first_out_of_range (r, g, b));
    [intros [= <-]; eexists; reflexivity|discriminate].
Qed.

Lemma hex_target_inl (text : str) (stop : main_step) :
  hex_target text = inl stop -> stop = invalid_hex text.
Proof.
  unfold hex_target. destruct (hex_to_rgb text); [discriminate|].
  intros [= <-]. reflexivity.
Qed.

Lemma target_of_inl (a : Args) (stop : main_step) :
  target_of a = inl stop -> exists printed, stop = Return1 printed.
Proof.
  unfold target_of. destruct (color_given a).
  - destruct (color a) as [|c [|c' cs]].
    + apply rgb_target_inl.
    + destruct (startswith c [HASH]).
      * intros H. apply hex_target_inl in H. subst. eexists. reflexivity.
      * apply rgb_target_inl.
    + apply rgb_target_inl.
  - destruct (hex a) as [h|].
    + intros H. apply hex_target_inl in H. subst. eexists. reflexivity.
    + intros [= <-]. eexists. reflexivity.
Qed.

(** X17.  [main] goes on to [recolor_icon] only when the input file exists and
    exactly one of the two forms of colour is given, and then with the
    tolerance and the flags of the command line, brightness preserved
    unless the opposite was asked. *)
Theorem main_call_is_validated (input_name : str) (a : Args)
  (rgb : Z * Z * Z) (t : Z) (p d : bool) :
  main input_name a = CallRecolor rgb t p d ->
  input_exists a = true
  /\ color_given a = negb (hex_given a)
  /\ t = tolerance_arg a
  /\ p = negb (no_preserve_brightness a)
  /\ d = desktop a.
Proof.
  unfold main.
  destruct (input_exists a); cbn [negb]; [|discriminate].
  destruct (color_given a), (hex_given a); cbn [negb andb]; try discriminate.
  - destruct (target_of a) as [stop|target] eqn:Ht.
    + intros ->. destruct (target_of_inl a _ Ht) as [? H]. discriminate H.
    + intros [= _ <- <- <-]. repeat split.
  - destruct (target_of a) as [stop|target] eqn:Ht.
    + intros ->. destruct (target_of_inl a _ Ht) as [? H]. discriminate H.
    + intros [= _ <- <- <-]. repeat split.
Qed.

Lemma main_call_is_validated_witness :
  main (lit "icon.png")
    (mkArgs true [lit "255"; lit "165"; lit "0"] None 50 true true)
  = CallRecolor (255, 165, 0) 50 false true
  /\ (50 = 50 /\ false = negb true /\ true = true).
Proof.
  split; [reflexivity|].
  apply (main_call_is_validated (lit "icon.png")
           (mkArgs true [lit "255"; lit "165"; lit "0"] None 50 true true)
           (255, 165, 0) 50 false true).
  reflexivity.
Defined.

(** X18.  When the colour comes from numeric arguments there are three of
    them and [main] calls [recolor_icon] with their values, each from 0 to
    255. *)
Theorem main_numeric_in_range (input_name : str) (a : Args)
  (r g b t : Z) (p d : bool) :
  main input_name a = CallRecolor (r, g, b) t p d ->
  color a <> [] ->
  (forall c, color a = [c] -> startswith c [HASH] = false) ->
  int_all (color a) = Some [r; g; b]
  /\ 0 <= r <= 255 /\ 0 <= g <= 255 /\ 0 <= b <= 255.
Proof.
  intros Hmain Hne Hnum.
  assert (Ht : target_of a = inr (r, g, b)).
  { revert Hmain. unfold main.
    destruct (input_exists a); cbn [negb]; [|discriminate].
    destruct (color_given a && hex_given a); [discriminate|].
    destruct (negb (color_given a) && negb (hex_given a)); [discriminate|].
    destruct (target_of a) as [stop|target] eqn:Ht.
    - intros ->. destruct (target_of_inl a _ Ht) as [? H]. discriminate H.
    - intros [= <- _ _ _]. reflexivity. }
  revert Ht. unfold target_of, color_given.
  destruct (color a) as [|c [|c' cs]] eqn:Hc; [contradiction| |].
  - rewrite (Hnum c eq_refl). apply rgb_target_inr.
  - apply rgb_target_inr.
Qed.

Lemma main_numeric_in_range_witness :
  main (lit "icon.png")
    (mkArgs true [lit "255"; lit "165"; lit "0"] None 50 true true)
  = CallRecolor (255, 165, 0) 50 false true
  /\ int_all [lit "255"; lit "165"; lit "0"] = Some [255; 165; 0].
Proof.
  split; [reflexivity|].
  apply (main_numeric_in_range (lit "icon.png")
           (mkArgs true [lit "255"; lit "165"; lit "0"] None 50 true true)
           255 165 0 50 false true).
  - reflexivity.
  - discriminate.
  - intros c H. discriminate H.
Defined.

(** X19.  A single positional argument that does not start with [#], such as
    a hexadecimal colour without it, never reaches [recolor_icon]: it is
    read as one number of three, or as no number. *)
Theorem main_single_argument_without_hash (input_name : str) (a : Args)
  (c : str) :
  color a = [c] ->
  startswith c [HASH] = false ->
  exists printed, main input_name a = Return1 printed.
Proof.
  intros Hc Hs. unfold main.
  destruct (input_exists a); cbn [negb]; [|eexists; reflexivity].
  destruct (color_given a && hex_given a); [eexists; reflexivity|].
  destruct (negb (color_given a) && negb (hex_given a));
    [eexists; reflexivity|].
  unfold target_of, color_given. rewrite Hc, Hs.
  unfold rgb_target, wrong_count. cbn [int_all].
  destruct (int 10 c); eexists; reflexivity.
Qed.

Lemma main_single_argument_without_hash_witness :
  startswith (lit "FF0000") [HASH] = false
  /\ exists printed,
       main (lit "icon.png") (mkArgs true [lit "FF0000"] None 30 false false)
       = Return1 printed.
Proof.
  split; [reflexivity|].
  exact (main_single_argument_without_hash (lit "icon.png")
           (mkArgs true [lit "FF0000"] None 30 false false) (lit "FF0000")
           eq_refl eq_refl).
Defined.

Example hex_without_hash :
  main (lit "icon.png") (mkArgs true [lit "FF0000"] None 30 false false)
  = Return1 (lit "Error: RGB values must be numbers")
  /\ main (lit "icon.png") (mkArgs true [] (Some (lit "FF0000")) 30 false false)
     = CallRecolor (255, 0, 0) 30 true false.
Proof. split; reflexivity. Qed.

(** X20.  A hexadecimal colour with fewer than five characters after its
    leading [#], given with [--hex] or as the single positional argument,
    is refused with the message for an invalid hex colour. *)
Theorem main_short_hex_refused (input_name : str) (a : Args) (text : str) :
  input_exists a = true ->
  (color a = [] /\ hex a = Some text /\ text <> []
   \/ color a = [text] /\ hex_given a = false
      /\ startswith text [HASH] = true) ->
  (List.length (lstrip_char HASH text) < 5)%nat ->
  main input_name a
  = Return1 (lit "Error: Invalid hex color '" ++ text ++ lit "'").
Proof.
  intros Hin Hform Hlen.
  pose proof (hex_to_rgb_short text Hlen) as Hnone.
  unfold main, target_of, color_given, hex_given. rewrite Hin. cbn [negb].
  destruct Hform as [(Hc & Hh & Hne)|(Hc & Hh & Hs)].
  - rewrite Hc, Hh. destruct text as [|ch text']; [contradiction|].
    cbn [andb negb]. unfold hex_target. rewrite Hnone. reflexivity.
  - unfold hex_given in Hh. rewrite Hc. cbn [andb negb].
    destruct (hex a) as [[|? ?]|]; try discriminate;
      cbn [andb negb]; rewrite Hs; unfold hex_target; rewrite Hnone;
      reflexivity.
Qed.

Lemma main_short_hex_refused_witness :
  (List.length (lstrip_char HASH (lit "#FFF")) < 5)%nat
  /\ main (lit "icon.png") (mkArgs true [lit "#FFF"] None 30 false false)
     = Return1 (lit "Error: Invalid hex color '#FFF'").
Proof.
  assert (H : (List.length (lstrip_char HASH (lit "#FFF")) < 5)%nat)
    by (vm_compute; lia).
  split; [exact H|].
  apply (main_short_hex_refused (lit "icon.png")
           (mkArgs true [lit "#FFF"] None 30 false false) (lit "#FFF")).
  - reflexivity.
  - right. repeat split.
  - exact H.
Defined.

End IconRecolorerProofs.
